(** * Branch-aware pipeline constructs: a shallow embedding

    Sources embedded here:
    - [packages/pipeline/src/pdk-pipeline.ts]     (class [PDKPipeline])
    - [packages/pipeline/src/feature-branches.ts] (class [FeatureBranches])
    - [packages/type-safe-api/src/project/model/openapi/open-api-definition.ts]
      (class [OpenApiDefinition])
    - the integration-test application [PDKPipelineIntegApp], as a caller
      of the constructor and of [addStage]

    JavaScript strings are sequences of UTF-16 code units, optional
    properties are [option]s, and the construct tree, the node contexts and
    the calls made into the construct libraries are threaded through a
    small state-and-error monad. *)

From Stdlib Require Import String Ascii NArith List.
From stdpp Require Import base decidable option list gmap.

Set Default Proof Using "Type".
Open Scope N_scope.

(** ** JavaScript strings and values *)

Module Js.

(** A string is the list of its UTF-16 code units. *)
Definition code_unit := N.
Definition jsstring := list code_unit.

(** An ASCII literal of the source, as a JavaScript string. *)
Definition lit (s : string) : jsstring :=
  map N_of_ascii (list_ascii_of_string s).

(** The values this code base stores in node contexts and tests for
    truthiness: [undefined], booleans and strings. *)
Inductive jsval :=
| VUndef
| VBool (b : bool)
| VStr (s : jsstring).

#[global] Instance jsval_eq_dec : EqDecision jsval.
Proof. solve_decision. Defined.

(** [ToBoolean]: [undefined], [false] and the empty string are falsy. *)
Definition truthy (v : jsval) : bool :=
  match v with
  | VUndef => false
  | VBool b => b
  | VStr [] => false
  | VStr (_ :: _) => true
  end.

(** An optional string property ([x?: string]) read as a value. *)
Definition of_opt (o : option jsstring) : jsval :=
  match o with
  | None => VUndef
  | Some s => VStr s
  end.

(** Truthiness of an optional string property: present and non-empty. *)
Definition provided (o : option jsstring) : bool := truthy (of_opt o).

(** [a || b] *)
Definition js_or (a b : jsval) : jsval := if truthy a then a else b.

(** [a && b] *)
Definition js_and (a b : jsval) : jsval := if truthy a then b else a.

(** [a === b] on the values above. *)
Definition strict_eq (a b : jsval) : bool := bool_decide (a = b).

(** [a ?? b] on an optional property. *)
Definition nullish {A} (a : option A) (b : A) : A :=
  match a with
  | Some x => x
  | None => b
  end.

(** [s.replace(/[C]/g, rep)] for a regular expression that is a single
    character class [C] with the global flag, and a replacement [rep]
    without [$] patterns: every code unit in the class is a match and is
    replaced, the others are copied. *)
Fixpoint replace_class (C : code_unit -> bool) (rep : jsstring) (s : jsstring)
  : jsstring :=
  match s with
  | [] => []
  | c :: s' =>
      if C c then rep ++ replace_class C rep s'
      else c :: replace_class C rep s'
  end.

Definition in_range (lo hi : string) (c : code_unit) : bool :=
  match lit lo, lit hi with
  | [l], [h] => (l <=? c) && (c <=? h)
  | _, _ => false
  end.

End Js.

Import Js.

(** ** pdk-pipeline.ts: the static helpers *)

(** [process.env]: the one variable the code reads. *)
Record Env := { BRANCH : option jsstring }.

(** A construct node, as far as [isDefaultBranch] uses it. *)
Record Node := { tryGetContext : jsstring -> jsval }.

Record IsDefaultBranchProps := {
  idb_node : option Node;
  idb_defaultBranchName : option jsstring;
}.

Module PDKPipeline.

Definition DEFAULT_BRANCH_NAME : jsstring := lit "mainline".

Definition ALL_BRANCHES : list jsstring := [lit ""].
Definition defaultBranchName : jsstring := DEFAULT_BRANCH_NAME.

(** The class [[a-zA-Z0-9-]] of [normalizeBranchName]. *)
Definition branch_class (c : code_unit) : bool :=
  in_range "a" "z" c || in_range "A" "Z" c || in_range "0" "9" c
  || bool_decide (lit "-" = [c]).

(** [branchName.replace(/[^a-zA-Z0-9-]/g, "-")] *)
Definition normalizeBranchName (branchName : jsstring) : jsstring :=
  replace_class (fun c => negb (branch_class c)) (lit "-") branchName.

Definition isDefaultBranch (env : Env) (props : IsDefaultBranchProps) : bool :=
  if negb (provided (BRANCH env)) then true
  else
    let defaultBranchName : jsval :=
      js_or
        (js_or (of_opt (idb_defaultBranchName props))
               (match idb_node props with
                | None => VUndef
                | Some node => tryGetContext node (lit "defaultBranchName")
                end))
        (VStr PDKPipeline.defaultBranchName) in
    strict_eq defaultBranchName (of_opt (BRANCH env)).

(** [process.env.BRANCH!] *)
Definition env_branch (env : Env) : jsstring := default [] (BRANCH env).

Definition getBranchPrefix (env : Env) (props : IsDefaultBranchProps) : jsstring :=
  if isDefaultBranch env props then lit ""
  else normalizeBranchName (env_branch env) ++ lit "-".

End PDKPipeline.


(** ** The construct tree and the calls into the construct libraries *)

(** A construct is named by its path in the construct tree: its own id
    first, then the ids of its scopes up to the root, whose path is empty. *)
Definition Path := list jsstring.

(** Library objects the code only passes around are kept by reference. *)
Inductive Aspect := AspectRef (id : N).
Inductive CodeBuildOptions := CodeBuildOptionsRef (id : N).

Inductive RemovalPolicy := DESTROY | RETAIN | SNAPSHOT | RETAIN_ON_UPDATE_OR_DELETE.
Inductive BucketEncryption := S3_MANAGED | KMS.
Inductive RepositoryType := codecommit | codestar.

(** [CodePipelineSource.codeCommit] and [CodePipelineSource.connection] *)
Inductive CodePipelineSource :=
| SourceCodeCommit (repository : Path) (branch : jsstring)
| SourceConnection (repoString branch connectionArn : jsstring).

(** [BuildSpec.fromObject({ version, phases: { install, build } })] *)
Record BuildSpec := {
  bs_version : jsstring;
  bs_install_commands : list jsstring;
  bs_build_commands : list jsstring;
}.

(** [new PolicyStatement({ effect: Effect.ALLOW, actions, resources })] *)
Record PolicyStatement := {
  ps_actions : list jsstring;
  ps_resources : list jsstring;
}.

(** The constructs the two classes instantiate, with the properties they
    pass that are fixed by the source or by the construction properties. *)
Inductive Construct :=
| CPDKPipeline
| CRepository (repositoryName : jsstring)
| CImportedRepository (repositoryName : jsstring)
| CBucket (encryption : BucketEncryption) (encryptionKey : option Path)
          (serverAccessLogsBucket : option Path)
| CKey
| CPipeline (crossAccountKeys : option bool) (artifactBucket : Path)
| CCodePipeline (codePipeline : Path) (input : CodePipelineSource)
                (commands : list jsstring)
| CFeatureBranches
| CProject (defaults : option CodeBuildOptions) (privileged : option bool)
           (buildSpec : BuildSpec)
| CCfnOutput (repository : Path).

(** What a tag is attached to: a construct, or the stack that encloses a
    construct ([Stack.of]). *)
Inductive TagTarget :=
| OnConstruct (p : Path)
| OnStackOf (p : Path).

(** The calls made into the construct libraries, in program order. *)
Inductive Event :=
| New (c : Construct) (p : Path)
| ApplyRemovalPolicy (p : Path) (policy : RemovalPolicy)
| AddToRolePolicy (p : Path) (statement : PolicyStatement)
| AddTag (target : TagTarget) (key value : jsstring)
| AddAspect (p : Path) (a : Aspect).

Inductive Error :=
| Thrown (message : jsstring)
    (* [throw new Error(message)] in the classes embedded here *)
| EmptyConstructId
    (* constructs: Only root constructs may have an empty ID *)
| DuplicateConstruct (scope : Path) (name : jsstring)
    (* constructs: There is already a Construct with name ... in ... *)
| ContextAfterChildren (p : Path)
    (* constructs: Cannot set context after children have been added *)
| LibraryError (message : jsstring).
    (* raised inside a library call taken as a primitive *)

(** The state the code reads back: the children registered under every
    construct, the context of every node, the aspects of every construct. *)
Record World := {
  children : gmap Path (list jsstring);
  context : gmap Path (gmap jsstring jsval);
  aspects : gmap Path (list Aspect);
}.

Record Outcome (A : Type) := {
  final : World;
  calls : list Event;
  result : Error + A;
}.
Arguments final {A} _.
Arguments calls {A} _.
Arguments result {A} _.

Definition M (A : Type) : Type := World -> Outcome A.

Definition ret {A} (a : A) : M A :=
  fun w => {| final := w; calls := []; result := inr a |}.

Definition throw {A} (e : Error) : M A :=
  fun w => {| final := w; calls := []; result := inl e |}.

Definition bind {A B} (m : M A) (k : A -> M B) : M B :=
  fun w =>
    let o := m w in
    match result o with
    | inl e => {| final := final o; calls := calls o; result := inl e |}
    | inr a =>
        let o' := k a (final o) in
        {| final := final o'; calls := calls o ++ calls o'; result := result o' |}
    end.

Definition emit (e : Event) : M unit :=
  fun w => {| final := w; calls := [e]; result := inr tt |}.

Definition get : M World :=
  fun w => {| final := w; calls := []; result := inr w |}.

Definition put (w : World) : M unit :=
  fun _ => {| final := w; calls := []; result := inr tt |}.

Declare Scope pdk_scope.
Delimit Scope pdk_scope with pdk.
Notation "'let*' x ':=' m 'in' k" := (bind m (fun x => k))
  (at level 10, x name, m at level 100, k at level 200) : pdk_scope.
Notation "m ';;' k" := (bind m (fun _ => k))
  (at level 100, k at level 200, right associativity) : pdk_scope.
Open Scope pdk_scope.

(** [list.forEach(f)] for a callback with effects. *)
Fixpoint forEach {A} (l : list A) (f : A -> M unit) : M unit :=
  match l with
  | [] => ret tt
  | x :: l' => f x ;; forEach l' f
  end.

(** *** The constructs library *)

Definition is_slash (c : code_unit) : bool := bool_decide (lit "/" = [c]).

(** [sanitizeId]: path separators in an id become double dashes. *)
Definition sanitizeId (id : jsstring) : jsstring :=
  replace_class is_slash (lit "--") id.

Definition children_of (w : World) (p : Path) : list jsstring :=
  default [] (children w !! p).

(** The tree after a construct named [name] is added under [scope]: the new
    node starts without children, without context and without aspects. *)
Definition register (w : World) (scope : Path) (name : jsstring) : World :=
  {| children :=
       <[name :: scope := []]> (<[scope := children_of w scope ++ [name]]> (children w));
     context := <[name :: scope := ∅]> (context w);
     aspects := <[name :: scope := []]> (aspects w) |}.

(** [new C(scope, id, ...)]: the node of the new construct is registered
    under its scope, which refuses an empty id and a name already taken. *)
Definition newConstruct (c : Construct) (scope : Path) (id : jsstring) : M Path :=
  let name := sanitizeId id in
  let* w := get in
  if bool_decide (name = []) then throw EmptyConstructId
  else if bool_decide (name ∈ children_of w scope) then
    throw (DuplicateConstruct scope name)
  else
    put (register w scope name) ;;
    emit (New c (name :: scope)) ;;
    ret (name :: scope).

(** [node.tryGetContext(key)]: the node's own entry, else its scope's. *)
Fixpoint lookup_context (ctx : gmap Path (gmap jsstring jsval)) (p : Path)
  (key : jsstring) : jsval :=
  let value := default VUndef (ctx !! p ≫= (.!! key)) in
  if bool_decide (value ≠ VUndef) then value
  else match p with
       | [] => VUndef
       | _ :: scope => lookup_context ctx scope key
       end.

Definition node_of (w : World) (p : Path) : Node :=
  {| tryGetContext := lookup_context (context w) p |}.

(** [node.setContext(key, value)] *)
Definition setContext (p : Path) (key : jsstring) (value : jsval) : M unit :=
  let* w := get in
  if bool_decide (children_of w p ≠ []) then throw (ContextAfterChildren p)
  else
    put {| children := children w;
           context := <[p := <[key := value]> (default ∅ (context w !! p))]> (context w);
           aspects := aspects w |}.

(** [Aspects.of(c).all] *)
Definition aspects_of (w : World) (p : Path) : list Aspect :=
  default [] (aspects w !! p).

(** ** feature-branches.ts *)

Record FeatureBranchesProps := {
  fb_branchNamePrefixes : list jsstring;
  fb_connectionArn : option jsstring;
  fb_repositoryOwnerAndName : option jsstring;
  fb_repository : option Path;
  fb_repositoryType : RepositoryType;
  fb_defaultBranchName : jsstring;
  fb_cdkCommand : option jsstring;
  fb_codeBuildDefaults : option CodeBuildOptions;
  fb_dockerEnabledForSynth : option bool;
}.

Module FeatureBranches.

Definition quote : jsstring := [34].

Definition buildSpec (props : FeatureBranchesProps) : BuildSpec :=
  {| bs_version := lit "0.2";
     bs_install_commands :=
       [lit "npm install -g aws-cdk pnpm"; lit "npx projen install"];
     bs_build_commands :=
       [lit "git branch -a";
        lit "export BRANCH=" ++ quote ++ lit "$(git rev-parse --abbrev-ref HEAD)" ++ quote;
        match js_or (of_opt (fb_cdkCommand props)) (VStr (lit "npx projen deploy")) with
        | VStr s => s
        | _ => []
        end] |}.

Definition rolePolicy : PolicyStatement :=
  {| ps_actions :=
       [lit "sts:AssumeRole"; lit "cloudformation:*"; lit "iam:*"; lit "s3:*";
        lit "ecr:*"; lit "ec2:*"; lit "ssm:*"; lit "codebuild:*";
        lit "codecommit:*"; lit "codestar-connections:*"];
     ps_resources := [lit "*"] |}.

(** The id of the project of a prefix: [`FeaturePipeline-${prefix}`]. *)
Definition projectId (prefix : jsstring) : jsstring :=
  lit "FeaturePipeline-" ++ prefix.

(** The callback of [forEach]: the project of one prefix, with its role
    policy. *)
Definition forPrefix (props : FeatureBranchesProps) (this : Path)
  (prefix : jsstring) : M unit :=
  let* project :=
    newConstruct
      (CProject (fb_codeBuildDefaults props) (fb_dockerEnabledForSynth props)
                (buildSpec props))
      this (projectId prefix) in
  emit (AddToRolePolicy project rolePolicy).

(** [constructor(scope, id, props)]; the properties not listed in
    [FeatureBranchesProps] ([cdkSrcDir], [synthShellStepPartialProps]) are
    not read by it. *)
Definition new (scope : Path) (id : jsstring) (props : FeatureBranchesProps)
  : M Path :=
  let* this := newConstruct CFeatureBranches scope id in
  forEach (fb_branchNamePrefixes props) (forPrefix props this) ;;
  ret this.

End FeatureBranches.

(** ** pdk-pipeline.ts: the constructor and [addStage]

    [Module Pipeline] holds the instance side of the class [PDKPipeline]. *)

Record PDKPipelineProps := {
  repositoryName : option jsstring;
  codestarConnectionArn : option jsstring;
  repositoryOwnerAndName : option jsstring;
  defaultBranchName : option jsstring;
  branchNamePrefixes : option (list jsstring);
  codeCommitRemovalPolicy : option RemovalPolicy;
  crossAccountKeys : option bool;
  synthCommands : option (list jsstring);
    (* [synthShellStepPartialProps?.commands] *)
  cdkCommand : option jsstring;
  codeBuildDefaults : option CodeBuildOptions;
  dockerEnabledForSynth : option bool;
}.

(** The fields of a [PDKPipeline] instance that [addStage] reads. *)
Record PDKPipelineObj := {
  self : Path;
  codePipeline : Path;
  codeRepository : option Path;
  this_branchNamePrefixes : option (list jsstring);
  this_defaultBranchName : option jsstring;
  this_repositoryName : option jsstring;
}.

Module Pipeline.

Definition msg_no_repository : jsstring :=
  lit "Either repositoryName or codestarConnectionArn must be provided".

Definition msg_no_owner : jsstring :=
  lit "repositoryOwnerAndName is required when using codestarConnectionArn".

(** [process.env.BRANCH || props.defaultBranchName || DEFAULT_BRANCH_NAME] *)
Definition branch_of (env : Env) (props : PDKPipelineProps) : jsstring :=
  match js_or (js_or (of_opt (BRANCH env)) (of_opt (defaultBranchName props)))
              (VStr PDKPipeline.DEFAULT_BRANCH_NAME) with
  | VStr s => s
  | _ => []
  end.

(** [PDKPipeline.isDefaultBranch({ node: c.node, defaultBranchName })] in a
    given state of the construct tree. *)
Definition onDefaultBranch (env : Env) (w : World) (c : Path)
  (name : option jsstring) : bool :=
  PDKPipeline.isDefaultBranch env
    {| idb_node := Some (node_of w c); idb_defaultBranchName := name |}.

Definition isDefaultBranchAt (env : Env) (c : Path) (name : option jsstring)
  : M bool :=
  let* w := get in
  ret (onDefaultBranch env w c name).

Definition truthy_flag (b : option bool) : bool := default false b.

(** The two checks that open the constructor. *)
Definition validate (props : PDKPipelineProps) : M unit :=
  if negb (provided (repositoryName props))
     && negb (provided (codestarConnectionArn props))
  then throw (Thrown msg_no_repository)
  else if provided (codestarConnectionArn props)
          && negb (provided (repositoryOwnerAndName props))
  then throw (Thrown msg_no_owner)
  else ret tt.

(** The source of the pipeline: the CodeCommit repository logic and the
    CodeStar connection logic. The calls into the libraries are followed on
    the path on which the library takes its arguments: what a library
    refuses for reasons of its own (an owner/name string of another form,
    for [CodePipelineSource.connection]) is not part of this embedding, and
    what is proved of the constructor is proved of the errors it raises
    itself, of the errors of the construct tree on the constructs listed
    here, and of the constructions that complete. *)
Definition repositorySource (env : Env) (scope this : Path) (props : PDKPipelineProps)
  : M (option Path * CodePipelineSource) :=
  let branch := branch_of env props in
  if provided (repositoryName props) then
    let name := default [] (repositoryName props) in
    let* isDefault := isDefaultBranchAt env this (defaultBranchName props) in
    let* codeRepository :=
      (if isDefault then
         let* r := newConstruct (CRepository name) this (lit "CodeRepository") in
         emit (ApplyRemovalPolicy r (nullish (codeCommitRemovalPolicy props) RETAIN)) ;;
         ret r
       else
         newConstruct (CImportedRepository name) scope (lit "CodeRepository")) in
    ret (Some codeRepository, SourceCodeCommit codeRepository branch)
  else
    ret (None,
         SourceConnection (default [] (repositoryOwnerAndName props)) branch
           (default [] (codestarConnectionArn props))).

(** The buckets, the key, the pipeline and the [CodePipeline] built on it:
    the constructs the constructor creates itself, under the pipeline.
    What the libraries create on their own behalf elsewhere in the tree
    (the provider of [autoDeleteObjects] under the stack) is not part of
    this embedding. *)
Definition artifacts (this : Path) (id : jsstring) (props : PDKPipelineProps)
  (source : CodePipelineSource) : M Path :=
  let* accessLogsBucket :=
    newConstruct (CBucket S3_MANAGED None None) this (lit "AccessLogsBucket") in
  let* encryptionKey :=
    (if truthy_flag (crossAccountKeys props) then
       let* k := newConstruct CKey this (lit "ArtifactKey") in ret (Some k)
     else ret None) in
  let* artifactBucket :=
    newConstruct
      (CBucket (if truthy_flag (crossAccountKeys props) then KMS else S3_MANAGED)
               encryptionKey (Some accessLogsBucket))
      this (lit "ArtifactsBucket") in
  let* codePipeline :=
    newConstruct (CPipeline (crossAccountKeys props) artifactBucket)
      this (lit "CodePipeline") in
  let commands :=
    match synthCommands props with
    | Some (c :: cs) => c :: cs
    | _ => [lit "npx projen build"]
    end in
  newConstruct (CCodePipeline codePipeline source commands) this id.

Definition featureBranchesProps (props : PDKPipelineProps) (prefixes : list jsstring)
  (codeRepository : option Path) : FeatureBranchesProps :=
  {| fb_branchNamePrefixes := prefixes;
     fb_connectionArn := codestarConnectionArn props;
     fb_repositoryOwnerAndName := repositoryOwnerAndName props;
     fb_repository := codeRepository;
     fb_repositoryType :=
       if provided (repositoryName props) then codecommit else codestar;
     fb_defaultBranchName :=
       match js_or (of_opt (defaultBranchName props))
                   (VStr PDKPipeline.DEFAULT_BRANCH_NAME) with
       | VStr s => s
       | _ => []
       end;
     fb_cdkCommand := cdkCommand props;
     fb_codeBuildDefaults := codeBuildDefaults props;
     fb_dockerEnabledForSynth := dockerEnabledForSynth props |}.

(** The feature-branch pipelines on the default branch, the tags of the
    stack on the other branches. *)
Definition featureBranches (env : Env) (this : Path) (props : PDKPipelineProps)
  (codeRepository : option Path) : M unit :=
  match branchNamePrefixes props with
  | Some prefixes =>
      let* isDefault := isDefaultBranchAt env this (defaultBranchName props) in
      if isDefault then
        FeatureBranches.new this (lit "FeatureBranchPipelines")
          (featureBranchesProps props prefixes codeRepository) ;;
        ret tt
      else
        emit (AddTag (OnStackOf this) (lit "FeatureBranch") (branch_of env props)) ;;
        if provided (repositoryName props) then
          emit (AddTag (OnStackOf this) (lit "RepoName")
                  (default [] (repositoryName props)))
        else ret tt
  | None => ret tt
  end.

(** The output with the clone URL of the repository. *)
Definition repositoryOutput (this : Path) (codeRepository : option Path) : M unit :=
  match codeRepository with
  | Some r => newConstruct (CCfnOutput r) this (lit "CodeRepositoryGRCUrl") ;; ret tt
  | None => ret tt
  end.

(** [constructor(scope, id, props)], in the order of its statements. *)
Definition new (env : Env) (scope : Path) (id : jsstring) (props : PDKPipelineProps)
  : M PDKPipelineObj :=
  let* this := newConstruct CPDKPipeline scope id in
  validate props ;;
  setContext this (lit "@aws-cdk/aws-s3:serverAccessLogsUseBucketPolicy")
    (VBool true) ;;
  let* repo_source := repositorySource env scope this props in
  let* pipeline := artifacts this id props (snd repo_source) in
  featureBranches env this props (fst repo_source) ;;
  repositoryOutput this (fst repo_source) ;;
  ret {| self := this;
         codePipeline := pipeline;
         codeRepository := fst repo_source;
         this_branchNamePrefixes := branchNamePrefixes props;
         this_defaultBranchName := defaultBranchName props;
         this_repositoryName := repositoryName props |}.

Section AddStage.

(** [AddStageOpts], [StageDeployment] and the stage-attachment primitive of
    the underlying [CodePipeline] ([this.codePipeline.addStage]) belong to
    the pipelines library. *)
Variables AddStageOpts StageDeployment : Type.
Variable codePipeline_addStage :
  Path -> Path -> option AddStageOpts -> M StageDeployment.

(** The root of the tree a construct lives in: [c.node.root]. *)
Definition root_of (c : Path) : Path := [].

(** The tagging block of [addStage]. *)
Definition tagStage (env : Env) (this : PDKPipelineObj) (stage : Path) : M unit :=
  let* isDefault := isDefaultBranchAt env stage (this_defaultBranchName this) in
  if bool_decide (is_Some (this_branchNamePrefixes this)) && negb isDefault then
    emit (AddTag (OnConstruct stage) (lit "FeatureBranch") (PDKPipeline.env_branch env)) ;;
    if provided (this_repositoryName this) then
      emit (AddTag (OnConstruct stage) (lit "RepoName")
              (default [] (this_repositoryName this)))
    else ret tt
  else ret tt.

(** The aspects of the root are added to the stage. *)
Definition propagateAspects (stage : Path) : M unit :=
  let* w := get in
  forEach (aspects_of w (root_of stage)) (fun aspect => emit (AddAspect stage aspect)).

Definition addStage (env : Env) (this : PDKPipelineObj) (stage : Path)
  (options : option AddStageOpts) : M StageDeployment :=
  tagStage env this stage ;;
  propagateAspects stage ;;
  codePipeline_addStage (codePipeline this) stage options.

End AddStage.

Arguments addStage {AddStageOpts StageDeployment} _ _ _ _ _.

End Pipeline.


(** ** open-api-definition.ts *)

Record OpenApiOptions := { title : jsstring }.

(** The options the constructor reads; handler languages are the string
    values of the [Language] enumeration. *)
Record OpenApiDefinitionOptions := {
  openApiOptions : OpenApiOptions;
  handlerLanguages : option (list jsstring);
}.

(** A file of a project, as projen's [SampleFile] component keeps it. *)
Record SampleFile := {
  filePath : jsstring;
  sf_contents : jsstring;
}.

(** A project: its output directory and its components, in the order of
    their creation. *)
Record Project := {
  outdir : jsstring;
  components : list SampleFile;
}.

Module OpenApiDefinition.

Definition nl : jsstring := [10].

(** One line of the template, with its line break. *)
Definition line (s : string) : jsstring := lit s ++ nl.

Definition lines (l : list string) : jsstring := concat (map line l).

(** [options.handlerLanguages?.[0]] *)
Definition firstHandlerLanguage (options : OpenApiDefinitionOptions) : jsval :=
  match handlerLanguages options with
  | Some (l :: _) => VStr l
  | _ => VUndef
  end.

(** The [x-handler] fragment of the template. *)
Definition handler (options : OpenApiDefinitionOptions) : jsstring :=
  match firstHandlerLanguage options with
  | VStr l =>
      if truthy (VStr l) then
        nl ++ lit "      x-handler:" ++ nl ++ lit "        language: " ++ l
      else lit ""
  | _ => lit ""
  end.

(** The rest of the template after the operation id. *)
Definition operation_and_schemas : jsstring :=
  lines [
    "      parameters:";
    "        - in: query";
    "          name: name";
    "          schema:";
    "            type: string";
    "          required: true";
    "      responses:";
    "        200:";
    "          description: Successful response";
    "          content:";
    "            'application/json':";
    "              schema:";
    "                $ref: '#/components/schemas/SayHelloResponseContent'";
    "        500:";
    "          description: An internal failure at the fault of the server";
    "          content:";
    "            'application/json':";
    "              schema:";
    "                $ref: '#/components/schemas/InternalFailureErrorResponseContent'";
    "        400:";
    "          description: An error at the fault of the client sending invalid input";
    "          content:";
    "            'application/json':";
    "              schema:";
    "                $ref: '#/components/schemas/BadRequestErrorResponseContent'";
    "        403:";
    "          description: An error due to the client not being authorized to access the resource";
    "          content:";
    "            'application/json':";
    "              schema:";
    "                $ref: '#/components/schemas/NotAuthorizedErrorResponseContent'";
    "components:";
    "  schemas:";
    "    SayHelloResponseContent:";
    "      type: object";
    "      properties:";
    "        message:";
    "          type: string";
    "      required:";
    "        - message";
    "    InternalFailureErrorResponseContent:";
    "      type: object";
    "      properties:";
    "        message:";
    "          type: string";
    "      required:";
    "        - message";
    "    BadRequestErrorResponseContent:";
    "      type: object";
    "      properties:";
    "        message:";
    "          type: string";
    "      required:";
    "        - message";
    "    NotAuthorizedErrorResponseContent:";
    "      type: object";
    "      properties:";
    "        message:";
    "          type: string";
    "      required:";
    "        - message"
  ]%string.

(** The template literal passed as [contents]. *)
Definition contents (options : OpenApiDefinitionOptions) : jsstring :=
  lines ["openapi: 3.0.3"; "info:"; "  version: 1.0.0"]%string
  ++ lit "  title: " ++ title (openApiOptions options) ++ nl
  ++ lines ["paths:"; "  /hello:"; "    get:"]%string
  ++ lit "      operationId: sayHello" ++ handler options ++ nl
  ++ operation_and_schemas.

(** [new OpenApiDefinition(project, options)]: the sample file is added to
    the project. [openApiSpecificationPath] is set by the superclass. *)
Definition new (openApiSpecificationPath : jsstring) (project : Project)
  (options : OpenApiDefinitionOptions) : Project :=
  {| outdir := outdir project;
     components :=
       components project
       ++ [{| filePath := openApiSpecificationPath;
              sf_contents := contents options |}] |}.

End OpenApiDefinition.

(** *** projen: writing sample files *)

Section Synthesis.

(** [path.join] of Node.js. *)
Variable path_join : jsstring -> jsstring -> jsstring.

(** [SampleFile.synthesize]: the file is written unless a file of that
    name exists ([writeOnceFileContents]). *)
Definition synthesize (dir : jsstring) (f : SampleFile)
  (fs : gmap jsstring jsstring) : gmap jsstring jsstring :=
  let fullFilename := path_join dir (filePath f) in
  match fs !! fullFilename with
  | Some _ => fs
  | None => <[fullFilename := sf_contents f]> fs
  end.

(** [project.synth()], as far as the sample files go: every sample file is
    synthesized, in the order of creation. The files projen manages
    itself are not part of this embedding. *)
Definition synth (project : Project) (fs : gmap jsstring jsstring)
  : gmap jsstring jsstring :=
  foldl (fun fs f => synthesize (outdir project) f fs) fs (components project).

End Synthesis.

(** ** Reading the branch resolver *)

(** The default name a node's context supplies, if a node is given. *)
Definition contextDefault (props : IsDefaultBranchProps) : jsval :=
  match idb_node props with
  | None => VUndef
  | Some node => tryGetContext node (lit "defaultBranchName")
  end.

(** The resolver as the specification words it, from the signal and the
    configured default name alone. *)
Definition isDefaultBranch_by_pair (signal configured : option jsstring) : bool :=
  if provided signal then
    bool_decide (signal =
                 Some (if provided configured then default [] configured
                       else PDKPipeline.DEFAULT_BRANCH_NAME))
  else true.

(** ** Reading the calls of a construction *)

(** A scope accepts a construct id that is not empty and not taken. *)
Definition accepts (w : World) (scope : Path) (id : jsstring) : Prop :=
  sanitizeId id ≠ [] ∧ sanitizeId id ∉ children_of w scope.

(** A feature trigger is a CodeBuild project. *)
Definition is_project (e : Event) : bool :=
  match e with
  | New (CProject _ _ _) _ => true
  | _ => false
  end.

Definition featureTriggers (c : list Event) : list Event :=
  List.filter is_project c.

Definition is_tag (e : Event) : bool :=
  match e with
  | AddTag _ _ _ => true
  | _ => false
  end.

Definition tagsAdded (c : list Event) : list Event := List.filter is_tag c.

(** Creating a repository, importing one, and setting a removal policy. *)
Definition is_repository_call (e : Event) : bool :=
  match e with
  | New (CRepository _) _ | New (CImportedRepository _) _
  | ApplyRemovalPolicy _ _ => true
  | _ => false
  end.

Definition repositoryCalls (c : list Event) : list Event :=
  List.filter is_repository_call c.

(** The name under which the project of a prefix enters the tree. *)
Definition projectName (prefix : jsstring) : jsstring :=
  sanitizeId (FeatureBranches.projectId prefix).

(** The project the feature-branch construct [fb] creates for a prefix. *)
Definition projectOf (props : FeatureBranchesProps) (fb : Path) (prefix : jsstring)
  : Event :=
  New (CProject (fb_codeBuildDefaults props) (fb_dockerEnabledForSynth props)
         (FeatureBranches.buildSpec props))
      (projectName prefix :: fb).

(** The calls it makes for a prefix: the project and its role policy. *)
Definition projectCalls (props : FeatureBranchesProps) (fb : Path) (prefix : jsstring)
  : list Event :=
  [projectOf props fb prefix;
   AddToRolePolicy (projectName prefix :: fb) FeatureBranches.rolePolicy].

(** The calls of the feature-branch path of the constructor: importing the
    repository and tagging the stack. *)
Definition is_feature_path_call (e : Event) : bool :=
  match e with
  | New (CImportedRepository _) _ | AddTag _ _ _ => true
  | _ => false
  end.

Definition featurePathCalls (c : list Event) : list Event :=
  List.filter is_feature_path_call c.

(** ** Reading the sample document

    To say what the text of the sample file holds, the text is read as
    YAML: block mappings and block sequences, told apart by indentation,
    with plain or quoted scalars kept as they are written. *)

Local Set Warnings "-register-all".

Module Yaml.

Inductive node :=
| Scalar (s : jsstring)
| Mapping (entries : list (jsstring * node))
| Sequence (items : list node).

(** The lines of a text; every line ends with a line feed. *)
Fixpoint split_lines (text : jsstring) : list jsstring :=
  match text with
  | [] => []
  | c :: text' =>
      if (c =? 10)%N then [] :: split_lines text'
      else match split_lines text' with
           | [] => [[c]]
           | l :: ls => (c :: l) :: ls
           end
  end.

(** The number of spaces a line starts with. *)
Fixpoint indent (l : jsstring) : nat :=
  match l with
  | c :: l' => if (c =? 32)%N then S (indent l') else O
  | [] => O
  end.

(** A line, as its indentation and what follows it. *)
Definition indented : Type := nat * jsstring.

Definition read_line (l : jsstring) : indented := (indent l, drop (indent l) l).

(** [key: value] and [key:], split at the first colon that ends the line or
    is followed by a space. *)
Fixpoint split_key (l : jsstring) : option (jsstring * option jsstring) :=
  match l with
  | [] => None
  | c :: l' =>
      if (c =? 58)%N then
        match l' with
        | [] => Some ([], None)
        | c' :: value =>
            if (c' =? 32)%N then Some ([], Some value)
            else match split_key l' with
                 | Some (key, value) => Some (c :: key, value)
                 | None => None
                 end
        end
      else match split_key l' with
           | Some (key, value) => Some (c :: key, value)
           | None => None
           end
  end.

(** [- item] *)
Definition is_item (l : jsstring) : bool :=
  match l with
  | 45 :: 32 :: _ => true
  | _ => false
  end.

(** The block that starts at the first line, whose indentation is [n]: a
    sequence when the line is an item, a mapping otherwise. What is read
    comes with the lines left over. *)
Fixpoint block (fuel n : nat) (ls : list indented) : node * list indented :=
  match fuel with
  | O => (Scalar [], ls)
  | S fuel =>
      match ls with
      | (_, c) :: _ =>
          if is_item c then
            let '(its, rest) := items fuel n ls in (Sequence its, rest)
          else
            let '(es, rest) := entries fuel n ls in (Mapping es, rest)
      | [] => (Mapping [], [])
      end
  end
with entries (fuel n : nat) (ls : list indented)
  : list (jsstring * node) * list indented :=
  match fuel with
  | O => ([], ls)
  | S fuel =>
      match ls with
      | (m, c) :: ls' =>
          if (m =? n)%nat then
            match split_key c with
            | Some (key, Some value) =>
                let '(es, rest) := entries fuel n ls' in
                ((key, Scalar value) :: es, rest)
            | Some (key, None) =>
                match ls' with
                | (m', _) :: _ =>
                    if (n <? m')%nat then
                      let '(child, rest') := block fuel m' ls' in
                      let '(es, rest) := entries fuel n rest' in
                      ((key, child) :: es, rest)
                    else
                      let '(es, rest) := entries fuel n ls' in
                      ((key, Scalar []) :: es, rest)
                | [] => ([(key, Scalar [])], [])
                end
            | None => ([], ls)
            end
          else ([], ls)
      | [] => ([], [])
      end
  end
with items (fuel n : nat) (ls : list indented) : list node * list indented :=
  match fuel with
  | O => ([], ls)
  | S fuel =>
      match ls with
      | (m, c) :: ls' =>
          if (m =? n)%nat && is_item c then
            let item := drop 2 c in
            match split_key item with
            | Some _ =>
                let '(es, rest') := entries fuel (n + 2) ((n + 2, item)%nat :: ls') in
                let '(its, rest) := items fuel n rest' in
                (Mapping es :: its, rest)
            | None =>
                let '(its, rest) := items fuel n ls' in
                (Scalar item :: its, rest)
            end
          else ([], ls)
      | [] => ([], [])
      end
  end.

(** A document: the block at indentation 0, when it takes up every line. *)
Definition read_lines (ls : list jsstring) : option node :=
  match block (3 * length ls + 3) 0 (map read_line ls) with
  | (document, []) => Some document
  | _ => None
  end.

Definition parse (text : jsstring) : option node := read_lines (split_lines text).

(** The node under a path of keys. *)
Fixpoint at_path (path : list jsstring) (d : node) : option node :=
  match path with
  | [] => Some d
  | key :: path' =>
      match d with
      | Mapping es =>
          match List.find (fun e => bool_decide (fst e = key)) es with
          | Some e => at_path path' (snd e)
          | None => None
          end
      | _ => None
      end
  end.

Definition keys (d : node) : list jsstring :=
  match d with
  | Mapping es => map fst es
  | _ => []
  end.

End Yaml.

(** A string without a line feed. *)
Definition plain (s : jsstring) : Prop := Forall (fun c => c ≠ 10) s.

(** The first handler language, empty when there is none. *)
Definition firstLanguage (options : OpenApiDefinitionOptions) : jsstring :=
  default [] (head (default [] (handlerLanguages options))).

(** A response body: an object whose single property [message], a string,
    is required. *)
Definition messageObject : Yaml.node :=
  Yaml.Mapping
    [(lit "type", Yaml.Scalar (lit "object"));
     (lit "properties",
      Yaml.Mapping [(lit "message", Yaml.Mapping [(lit "type", Yaml.Scalar (lit "string"))])]);
     (lit "required", Yaml.Sequence [Yaml.Scalar (lit "message")])].

(** The responses of the sample operation, with the schemas they refer to. *)
Definition sampleResponses : list (jsstring * jsstring) :=
  [(lit "200", lit "SayHelloResponseContent");
   (lit "500", lit "InternalFailureErrorResponseContent");
   (lit "400", lit "BadRequestErrorResponseContent");
   (lit "403", lit "NotAuthorizedErrorResponseContent")].

(** ** Example configurations *)

Definition emptyWorld : World := {| children := ∅; context := ∅; aspects := ∅ |}.

(** A tree with one stack under the root. *)
Definition stackWorld : World := register emptyWorld [] (lit "Stack").

Definition stack : Path := [lit "Stack"].

Definition noSignal : Env := {| BRANCH := None |}.
Definition onFeatureX : Env := {| BRANCH := Some (lit "feature/x") |}.

Definition invalidConfig : PDKPipelineProps :=
  {| repositoryName := None; codestarConnectionArn := None;
     repositoryOwnerAndName := None; defaultBranchName := None;
     branchNamePrefixes := None; codeCommitRemovalPolicy := None;
     crossAccountKeys := Some false; synthCommands := None; cdkCommand := None;
     codeBuildDefaults := None; dockerEnabledForSynth := None |}.

Definition invalidCodeStarConfig : PDKPipelineProps :=
  {| repositoryName := None;
     codestarConnectionArn :=
       Some (lit "arn:aws:codestar-connections:region:account:connection/uuid");
     repositoryOwnerAndName := None; defaultBranchName := None;
     branchNamePrefixes := None; codeCommitRemovalPolicy := None;
     crossAccountKeys := Some false; synthCommands := None; cdkCommand := None;
     codeBuildDefaults := None; dockerEnabledForSynth := None |}.

(** [repositoryName = "Demo"] with the prefixes given. *)
Definition demo (mainline : option jsstring) (prefixes : option (list jsstring))
  : PDKPipelineProps :=
  {| repositoryName := Some (lit "Demo"); codestarConnectionArn := None;
     repositoryOwnerAndName := None; defaultBranchName := mainline;
     branchNamePrefixes := prefixes; codeCommitRemovalPolicy := None;
     crossAccountKeys := Some false; synthCommands := None; cdkCommand := None;
     codeBuildDefaults := None; dockerEnabledForSynth := None |}.

Definition featurePrefixes (prefixes : list jsstring) : FeatureBranchesProps :=
  {| fb_branchNamePrefixes := prefixes;
     fb_connectionArn := None; fb_repositoryOwnerAndName := None;
     fb_repository := None; fb_repositoryType := codecommit;
     fb_defaultBranchName := lit "mainline"; fb_cdkCommand := None;
     fb_codeBuildDefaults := None; fb_dockerEnabledForSynth := None |}.

(** A configuration that passes the two checks of the constructor. *)
Definition validConfig (props : PDKPipelineProps) : bool :=
  (provided (repositoryName props) || provided (codestarConnectionArn props))
  && (negb (provided (codestarConnectionArn props))
      || provided (repositoryOwnerAndName props)).

(** The children registered under a scope and under one of its children. *)
Definition Kids (scope : Path) (name : jsstring) (A B : list jsstring) (w : World)
  : Prop :=
  children_of w scope = A ∧ children_of w (name :: scope) = B.

(** ** Predicates on computations *)

(** A computation that makes no call of a given kind. *)
Definition quiet (π : Event → bool) {A} (m : M A) : Prop :=
  ∀ w, List.filter π (calls (m w)) = [].

(** A computation that throws no error of its own. *)
Definition no_throw {A} (m : M A) : Prop :=
  ∀ w message, result (m w) ≠ inl (Thrown message).

(** A computation that keeps an invariant of the state. *)
Definition preserves (I : World → Prop) {A} (m : M A) : Prop :=
  ∀ w, I w → I (final (m w)).

(** While a pipeline is constructed, the construct stays registered under
    its scope and its node keeps resolving [defaultBranchName] to the value
    [v] that its scope gave when it was created. *)
Definition Inv (scope : Path) (name : jsstring) (v : jsval) (w : World) : Prop :=
  name ∈ children_of w scope
  ∧ lookup_context (context w) (name :: scope) (lit "defaultBranchName") = v.

(** ** Reading a completed construction

    What a construction that completes has done, written down directly:
    the repository it binds, the source of the pipeline, and its calls,
    phase by phase. [isDefault] is the answer of the branch resolver. *)

(** The repository: created under the pipeline on the default branch,
    imported under the scope on any other. *)
Definition repositoryOf (isDefault : bool) (scope this : Path)
  (props : PDKPipelineProps) : option Path :=
  if provided (repositoryName props) then
    Some (lit "CodeRepository" :: (if isDefault then this else scope))
  else None.

Definition sourceOf (env : Env) (props : PDKPipelineProps)
  (repository : option Path) : CodePipelineSource :=
  match repository with
  | Some r => SourceCodeCommit r (Pipeline.branch_of env props)
  | None =>
      SourceConnection (default [] (repositoryOwnerAndName props))
        (Pipeline.branch_of env props) (default [] (codestarConnectionArn props))
  end.

Definition repositoryTrace (isDefault : bool) (scope this : Path)
  (props : PDKPipelineProps) : list Event :=
  if provided (repositoryName props) then
    if isDefault then
      [New (CRepository (default [] (repositoryName props)))
         (lit "CodeRepository" :: this);
       ApplyRemovalPolicy (lit "CodeRepository" :: this)
         (default RETAIN (codeCommitRemovalPolicy props))]
    else
      [New (CImportedRepository (default [] (repositoryName props)))
         (lit "CodeRepository" :: scope)]
  else [].

(** The commands of the synth step. *)
Definition synthCommandsOf (props : PDKPipelineProps) : list jsstring :=
  match synthCommands props with
  | Some (c :: cs) => c :: cs
  | _ => [lit "npx projen build"]
  end.

Definition artifactsTrace (this : Path) (id : jsstring) (props : PDKPipelineProps)
  (source : CodePipelineSource) : list Event :=
  let keyed := Pipeline.truthy_flag (crossAccountKeys props) in
  [New (CBucket S3_MANAGED None None) (lit "AccessLogsBucket" :: this)]
  ++ (if keyed then [New CKey (lit "ArtifactKey" :: this)] else [])
  ++ [New (CBucket (if keyed then KMS else S3_MANAGED)
             (if keyed then Some (lit "ArtifactKey" :: this) else None)
             (Some (lit "AccessLogsBucket" :: this)))
        (lit "ArtifactsBucket" :: this);
      New (CPipeline (crossAccountKeys props) (lit "ArtifactsBucket" :: this))
        (lit "CodePipeline" :: this);
      New (CCodePipeline (lit "CodePipeline" :: this) source (synthCommandsOf props))
        (sanitizeId id :: this)].

Definition featureTrace (env : Env) (isDefault : bool) (this : Path)
  (props : PDKPipelineProps) (repository : option Path) : list Event :=
  match branchNamePrefixes props with
  | Some prefixes =>
      if isDefault then
        New CFeatureBranches (lit "FeatureBranchPipelines" :: this)
        :: flat_map
             (projectCalls (Pipeline.featureBranchesProps props prefixes repository)
                (lit "FeatureBranchPipelines" :: this))
             prefixes
      else
        AddTag (OnStackOf this) (lit "FeatureBranch") (Pipeline.branch_of env props)
        :: (if provided (repositoryName props) then
              [AddTag (OnStackOf this) (lit "RepoName")
                 (default [] (repositoryName props))]
            else [])
  | None => []
  end.

Definition outputTrace (this : Path) (repository : option Path) : list Event :=
  match repository with
  | Some r => [New (CCfnOutput r) (lit "CodeRepositoryGRCUrl" :: this)]
  | None => []
  end.

(** The calls of a whole construction, in program order. *)
Definition constructionTrace (env : Env) (w : World) (scope : Path) (id : jsstring)
  (props : PDKPipelineProps) : list Event :=
  let this := sanitizeId id :: scope in
  let isDefault := Pipeline.onDefaultBranch env w scope (defaultBranchName props) in
  let repository := repositoryOf isDefault scope this props in
  New CPDKPipeline this
  :: repositoryTrace isDefault scope this props
  ++ artifactsTrace this id props (sourceOf env props repository)
  ++ featureTrace env isDefault this props repository
  ++ outputTrace this repository.

(** The instance a construction returns. *)
Definition constructedObject (env : Env) (w : World) (scope : Path) (id : jsstring)
  (props : PDKPipelineProps) : PDKPipelineObj :=
  let this := sanitizeId id :: scope in
  {| self := this;
     codePipeline := sanitizeId id :: this;
     codeRepository :=
       repositoryOf (Pipeline.onDefaultBranch env w scope (defaultBranchName props))
         scope this props;
     this_branchNamePrefixes := branchNamePrefixes props;
     this_defaultBranchName := defaultBranchName props;
     this_repositoryName := repositoryName props |}.

(** Kinds of calls of a construction. *)
Definition is_output (e : Event) : bool :=
  match e with
  | New (CCfnOutput _) _ => true
  | _ => false
  end.

(** The buckets and the key: where the artifacts are stored. *)
Definition is_store (e : Event) : bool :=
  match e with
  | New (CBucket _ _ _) _ | New CKey _ => true
  | _ => false
  end.

Definition is_code_pipeline (e : Event) : bool :=
  match e with
  | New (CCodePipeline _ _ _) _ => true
  | _ => false
  end.

Definition is_feature_branches (e : Event) : bool :=
  match e with
  | New CFeatureBranches _ => true
  | _ => false
  end.

(** The key and the value of a tag. *)
Definition tagOf (e : Event) : option (jsstring * jsstring) :=
  match e with
  | AddTag _ key value => Some (key, value)
  | _ => None
  end.

(** The errors of the construct tree on a new construct. *)
Definition tree_error (e : Error) : Prop :=
  e = EmptyConstructId ∨ ∃ scope name, e = DuplicateConstruct scope name.

(** A computation whose errors all satisfy [P]. *)
Definition fails_only (P : Error → Prop) {A} (m : M A) : Prop :=
  ∀ w e, result (m w) = inl e → P e.

(** The error of a context set on a node that has children. *)
Definition refuses_context {A} (r : Error + A) : bool :=
  match r with
  | inl (ContextAfterChildren _) => true
  | _ => false
  end.

(** While a pipeline is constructed, the construct stays registered under
    its scope and its node keeps resolving a context key to the value
    [v]. *)
Definition Keeps (scope : Path) (name key : jsstring) (v : jsval) (w : World) : Prop :=
  name ∈ children_of w scope
  ∧ lookup_context (context w) (name :: scope) key = v.

(** The pipeline of the integration-test application: a stack
    [PipelineStack] under the application, and in it the pipeline
    [Pipeline] on the repository [monorepo], with cross-account keys. The
    commands given there under [synth] are not read by the constructor. *)
Definition integWorld : World := register emptyWorld [] (lit "PipelineStack").

Definition integProps : PDKPipelineProps :=
  {| repositoryName := Some (lit "monorepo"); codestarConnectionArn := None;
     repositoryOwnerAndName := None; defaultBranchName := None;
     branchNamePrefixes := None; codeCommitRemovalPolicy := None;
     crossAccountKeys := Some true; synthCommands := None; cdkCommand := None;
     codeBuildDefaults := None; dockerEnabledForSynth := None |}.

(** A connection in place of a repository name. *)
Definition viaConnection : PDKPipelineProps :=
  {| repositoryName := None;
     codestarConnectionArn :=
       Some (lit "arn:aws:codestar-connections:region:account:connection/uuid");
     repositoryOwnerAndName := Some (lit "owner/repo"); defaultBranchName := None;
     branchNamePrefixes := None; codeCommitRemovalPolicy := None;
     crossAccountKeys := Some false; synthCommands := None; cdkCommand := None;
     codeBuildDefaults := None; dockerEnabledForSynth := None |}.

(** A stack whose own context names ["main"] as the default branch, beside
    a stage under the root, whose context does not. *)
Definition mainStackWorld : World :=
  register
    (final (setContext stack (lit "defaultBranchName") (VStr (lit "main")) stackWorld))
    [] (lit "Stage").

Definition onMain : Env := {| BRANCH := Some (lit "main") |}.

(** * Properties *)

(** ** Strings *)

Lemma replace_class_single C r s :
  replace_class C [r] s = map (fun c => if C c then r else c) s.
Proof. induction s as [|c s IH]; simpl; [done|]. rewrite IH. by destruct (C c). Qed.

Lemma replace_class_nil_iff C r1 r2 s :
  replace_class C (r1 :: r2) s = [] ↔ s = [].
Proof.
  split; [|by intros ->].
  destruct s as [|c s]; [done|]. simpl. by destruct (C c).
Qed.

Lemma sanitizeId_nil_iff id : sanitizeId id = [] ↔ id = [].
Proof. apply replace_class_nil_iff. Qed.

Lemma branch_class_spec (c : code_unit) :
  PDKPipeline.branch_class c = true ↔
  (97 <= c <= 122 ∨ 65 <= c <= 90 ∨ 48 <= c <= 57 ∨ c = 45)%N.
Proof.
  unfold PDKPipeline.branch_class, in_range. simpl.
  rewrite !orb_true_iff, !andb_true_iff, !N.leb_le, bool_decide_eq_true.
  split.
  - intros [[[H|H]|H]|H]; [tauto..|]. injection H as <-. tauto.
  - intros [H|[H|[H| ->]]]; tauto.
Qed.

(** ** The branch resolver *)

Lemma not_default_branch_set env props :
  PDKPipeline.isDefaultBranch env props = false →
  ∃ b, BRANCH env = Some b ∧ b ≠ [] ∧ PDKPipeline.env_branch env = b.
Proof.
  unfold PDKPipeline.isDefaultBranch, PDKPipeline.env_branch.
  destruct (BRANCH env) as [[|c b]|]; simpl; try done.
  intros _. by exists (c :: b).
Qed.

(** C3. Normalization maps every code unit outside [[A-Za-z0-9-]] to ['-'],
    keeps the code units of the class, and so preserves the length of the
    branch name; ["feature/foo_1"] becomes ["feature-foo-1"]. *)
Theorem normalizeBranchName_pointwise (branchName : jsstring) :
  PDKPipeline.normalizeBranchName branchName
  = map (fun c => if PDKPipeline.branch_class c then c else N_of_ascii "-") branchName
  ∧ length (PDKPipeline.normalizeBranchName branchName) = length branchName
  ∧ PDKPipeline.normalizeBranchName (lit "feature/foo_1") = lit "feature-foo-1".
Proof.
  assert (H : PDKPipeline.normalizeBranchName branchName
              = map (fun c => if PDKPipeline.branch_class c then c else N_of_ascii "-")
                    branchName).
  { unfold PDKPipeline.normalizeBranchName. change (lit "-") with [N_of_ascii "-"].
    rewrite replace_class_single. apply map_ext. intros c.
    by destruct (PDKPipeline.branch_class c). }
  split; [exact H|]. split; [|reflexivity].
  rewrite H. apply length_map.
Qed.

(** C2, as worded, fails: with no default name configured, a node whose
    context names ["main"] as the default branch makes ["main"] the default
    branch, where the wording falls back to ["mainline"]. *)
Lemma isDefaultBranch_context_counterexample :
  let node :=
    {| tryGetContext := fun key =>
         if bool_decide (key = lit "defaultBranchName") then VStr (lit "main")
         else VUndef |} in
  let env := {| BRANCH := Some (lit "main") |} in
  let props := {| idb_node := Some node; idb_defaultBranchName := None |} in
  PDKPipeline.isDefaultBranch env props = true
  ∧ isDefaultBranch_by_pair (BRANCH env) (idb_defaultBranchName props) = false.
Proof. split; reflexivity. Qed.

(** C2, amended. Without a (non-empty) branch signal the resolver answers
    true whatever the default name; with one, it answers whether the signal
    equals the default name in effect: the configured name, else the value
    the node's context gives for [defaultBranchName] when a node is passed
    and that value is truthy, else ["mainline"]. *)
Theorem isDefaultBranch_cases (env : Env) (props : IsDefaultBranchProps) :
  PDKPipeline.isDefaultBranch env props =
  if provided (BRANCH env) then
    if provided (idb_defaultBranchName props) then
      bool_decide (BRANCH env = idb_defaultBranchName props)
    else if truthy (contextDefault props) then
      bool_decide (contextDefault props = VStr (PDKPipeline.env_branch env))
    else bool_decide (BRANCH env = Some (lit "mainline"))
  else true.
Proof.
  unfold PDKPipeline.isDefaultBranch, contextDefault, PDKPipeline.env_branch,
    PDKPipeline.defaultBranchName, PDKPipeline.DEFAULT_BRANCH_NAME.
  destruct (BRANCH env) as [[|c b]|]; simpl; try done.
  destruct (idb_defaultBranchName props) as [[|d ds]|], (idb_node props) as [n|];
    simpl; unfold js_or, strict_eq; simpl;
    try (destruct (truthy (tryGetContext n _)) eqn:E; simpl);
    try done; apply bool_decide_ext; split; congruence.
Qed.

(** ** The monad *)

Lemma result_bind {A B} (m : M A) (k : A → M B) w :
  result (bind m k w) =
  match result (m w) with
  | inl e => inl e
  | inr a => result (k a (final (m w)))
  end.
Proof. unfold bind. by destruct (result (m w)). Qed.

Lemma calls_bind {A B} (m : M A) (k : A → M B) w :
  calls (bind m k w) =
  calls (m w) ++ match result (m w) with
                 | inl _ => []
                 | inr a => calls (k a (final (m w)))
                 end.
Proof. unfold bind. destruct (result (m w)); simpl; [by rewrite app_nil_r|done]. Qed.

Lemma final_bind {A B} (m : M A) (k : A → M B) w :
  final (bind m k w) =
  match result (m w) with
  | inl _ => final (m w)
  | inr a => final (k a (final (m w)))
  end.
Proof. unfold bind. by destruct (result (m w)). Qed.

(** A successful sequence ran both of its parts. *)
Lemma bind_inr {A B} (m : M A) (k : A → M B) w b :
  result (bind m k w) = inr b →
  ∃ a, result (m w) = inr a
       ∧ result (k a (final (m w))) = inr b
       ∧ calls (bind m k w) = calls (m w) ++ calls (k a (final (m w))).
Proof.
  rewrite result_bind, calls_bind.
  destruct (result (m w)) as [e|a]; [done|]. intros H. by exists a.
Qed.

(** *** Computations that make no call of a given kind *)

Lemma quiet_ret π {A} (a : A) : quiet π (ret a).
Proof. done. Qed.

Lemma quiet_throw π {A} e : quiet π (@throw A e).
Proof. done. Qed.

Lemma quiet_get π : quiet π get.
Proof. done. Qed.

Lemma quiet_put π w : quiet π (put w).
Proof. done. Qed.

Lemma quiet_emit π e : π e = false → quiet π (emit e).
Proof. intros H w. simpl. by rewrite H. Qed.

Lemma quiet_bind π {A B} (m : M A) (k : A → M B) :
  quiet π m → (∀ a, quiet π (k a)) → quiet π (bind m k).
Proof.
  intros Hm Hk w. rewrite calls_bind, List.filter_app, Hm.
  destruct (result (m w)); [done|]. apply Hk.
Qed.

Lemma quiet_forEach π {A} (l : list A) f :
  (∀ x, quiet π (f x)) → quiet π (forEach l f).
Proof.
  intros Hf. induction l as [|x l IH]; simpl; [apply quiet_ret|].
  apply quiet_bind; [apply Hf|done].
Qed.

(** *** Computations that throw no error of their own *)

Lemma no_throw_ret {A} (a : A) : no_throw (ret a).
Proof. done. Qed.

Lemma no_throw_get : no_throw get.
Proof. done. Qed.

Lemma no_throw_put w : no_throw (put w).
Proof. done. Qed.

Lemma no_throw_emit e : no_throw (emit e).
Proof. done. Qed.

Lemma no_throw_throw {A} e : (∀ message, e ≠ Thrown message) → no_throw (@throw A e).
Proof. intros H w message [= E]. by eapply H. Qed.

Lemma no_throw_bind {A B} (m : M A) (k : A → M B) :
  no_throw m → (∀ a, no_throw (k a)) → no_throw (bind m k).
Proof.
  intros Hm Hk w message. rewrite result_bind.
  destruct (result (m w)) eqn:E; [|apply Hk].
  intros [= ->]. by eapply Hm.
Qed.

Lemma no_throw_forEach {A} (l : list A) f :
  (∀ x, no_throw (f x)) → no_throw (forEach l f).
Proof.
  intros Hf. induction l as [|x l IH]; simpl; [apply no_throw_ret|].
  apply no_throw_bind; [apply Hf|done].
Qed.

(** *** Computations that keep an invariant of the state *)

Lemma preserves_ret I {A} (a : A) : preserves I (ret a).
Proof. by intros w. Qed.

Lemma preserves_throw I {A} e : preserves I (@throw A e).
Proof. by intros w. Qed.

Lemma preserves_get I : preserves I get.
Proof. by intros w. Qed.

Lemma preserves_emit I e : preserves I (emit e).
Proof. by intros w. Qed.

Lemma preserves_bind I {A B} (m : M A) (k : A → M B) :
  preserves I m → (∀ a, preserves I (k a)) → preserves I (bind m k).
Proof.
  intros Hm Hk w Hw. rewrite final_bind.
  destruct (result (m w)); [by apply Hm|]. by apply Hk, Hm.
Qed.

(** ** The construct tree *)

Lemma newConstruct_unfold c scope id w :
  newConstruct c scope id w =
  if bool_decide (sanitizeId id = []) then
    {| final := w; calls := []; result := inl EmptyConstructId |}
  else if bool_decide (sanitizeId id ∈ children_of w scope) then
    {| final := w; calls := [];
       result := inl (DuplicateConstruct scope (sanitizeId id)) |}
  else
    {| final := register w scope (sanitizeId id);
       calls := [New c (sanitizeId id :: scope)];
       result := inr (sanitizeId id :: scope) |}.
Proof.
  unfold newConstruct, bind, get, throw, put, emit, ret. simpl.
  by repeat case_bool_decide.
Qed.

Lemma newConstruct_accepted c scope id w :
  accepts w scope id →
  newConstruct c scope id w =
  {| final := register w scope (sanitizeId id);
     calls := [New c (sanitizeId id :: scope)];
     result := inr (sanitizeId id :: scope) |}.
Proof.
  intros [H1 H2]. rewrite newConstruct_unfold.
  by rewrite !bool_decide_eq_false_2.
Qed.

Lemma newConstruct_inr c scope id w p :
  result (newConstruct c scope id w) = inr p →
  accepts w scope id ∧ p = sanitizeId id :: scope.
Proof.
  rewrite newConstruct_unfold. unfold accepts.
  repeat case_bool_decide; simpl; try done. by intros [= <-].
Qed.

Lemma quiet_newConstruct π c scope id :
  (∀ p, π (New c p) = false) → quiet π (newConstruct c scope id).
Proof.
  intros H w. rewrite newConstruct_unfold.
  repeat case_bool_decide; simpl; try done. by rewrite H.
Qed.

Lemma no_throw_newConstruct c scope id : no_throw (newConstruct c scope id).
Proof.
  intros w message. rewrite newConstruct_unfold.
  by repeat case_bool_decide.
Qed.

Lemma setContext_unfold p key value w :
  setContext p key value w =
  if bool_decide (children_of w p ≠ []) then
    {| final := w; calls := []; result := inl (ContextAfterChildren p) |}
  else
    {| final :=
         {| children := children w;
            context := <[p := <[key := value]> (default ∅ (context w !! p))]> (context w);
            aspects := aspects w |};
       calls := []; result := inr tt |}.
Proof. unfold setContext, bind, get, throw, put. simpl. by case_bool_decide. Qed.

Lemma quiet_setContext π p key value : quiet π (setContext p key value).
Proof. intros w. rewrite setContext_unfold. by case_bool_decide. Qed.

Lemma no_throw_setContext p key value : no_throw (setContext p key value).
Proof. intros w message. rewrite setContext_unfold. by case_bool_decide. Qed.

Lemma children_of_register w scope name q :
  children_of (register w scope name) q =
  if decide (q = name :: scope) then []
  else if decide (q = scope) then children_of w scope ++ [name]
  else children_of w q.
Proof.
  unfold children_of at 1, register. simpl.
  rewrite lookup_insert. case_decide as H1; [subst|].
  - by rewrite decide_True.
  - rewrite decide_False by done. rewrite lookup_insert.
    case_decide as H2; [subst|].
    + by rewrite decide_True.
    + by rewrite decide_False.
Qed.

Lemma cons_neq_self {A} (x : A) (l : list A) : l ≠ x :: l.
Proof. intros H. apply (f_equal length) in H. simpl in H. lia. Qed.

Lemma not_suffix_longer {A} (l1 l2 : list A) :
  (length l2 < length l1)%nat → ¬ l1 `suffix_of` l2.
Proof. intros H [k ->]. rewrite length_app in H. lia. Qed.

Lemma lookup_context_insert_ne ctx q m p key :
  ¬ q `suffix_of` p →
  lookup_context (<[q := m]> ctx) p key = lookup_context ctx p key.
Proof.
  induction p as [|a p IH]; intros H; simpl.
  - rewrite lookup_insert_ne; [done|]. intros ->. by apply H.
  - rewrite lookup_insert_ne by (intros ->; by apply H).
    rewrite IH; [done|]. intros H'. apply H. by apply suffix_cons_r.
Qed.

Lemma lookup_context_setContext ctx p key value q k :
  key ≠ k →
  lookup_context (<[p := <[key := value]> (default ∅ (ctx !! p))]> ctx) q k
  = lookup_context ctx q k.
Proof.
  intros Hk.
  assert (Hown : ∀ q, (<[p := <[key := value]> (default ∅ (ctx !! p))]> ctx) !! q ≫= (.!! k)
                     = ctx !! q ≫= (.!! k)).
  { intros q'. rewrite lookup_insert. case_decide as E; [subst q'|done].
    simpl. rewrite lookup_insert_ne by done.
    by destruct (ctx !! p). }
  induction q as [|a q IH]; simpl; rewrite Hown; [done|]. by rewrite IH.
Qed.

Lemma lookup_context_fresh ctx name scope key :
  lookup_context (<[name :: scope := ∅]> ctx) (name :: scope) key
  = lookup_context ctx scope key.
Proof.
  simpl. rewrite lookup_insert_eq. simpl. rewrite lookup_empty. simpl.
  apply lookup_context_insert_ne, not_suffix_longer. simpl. lia.
Qed.

(** *** The context a new construct inherits *)

Lemma context_register w scope name :
  context (register w scope name) = <[name :: scope := ∅]> (context w).
Proof. done. Qed.

Lemma Inv_register w scope name :
  Inv scope name (lookup_context (context w) scope (lit "defaultBranchName"))
    (register w scope name).
Proof.
  split.
  - rewrite children_of_register.
    rewrite decide_False by apply cons_neq_self. rewrite decide_True by done.
    apply elem_of_app. right. by apply list_elem_of_singleton.
  - rewrite context_register. apply lookup_context_fresh.
Qed.

Lemma preserves_newConstruct_under scope name v c scope' id :
  (name :: scope) `suffix_of` scope' →
  preserves (Inv scope name v) (newConstruct c scope' id).
Proof.
  intros Hs w [H1 H2]. apply suffix_length in Hs. simpl in Hs.
  rewrite newConstruct_unfold. repeat case_bool_decide; simpl; try done.
  split.
  - rewrite children_of_register.
    rewrite decide_False by (intros E; apply (f_equal length) in E; simpl in E; lia).
    rewrite decide_False by (intros E; apply (f_equal length) in E; simpl in E; lia).
    done.
  - rewrite context_register, lookup_context_insert_ne; [done|].
    apply not_suffix_longer. simpl. lia.
Qed.

Lemma preserves_newConstruct_sibling scope name v c id :
  preserves (Inv scope name v) (newConstruct c scope id).
Proof.
  intros w [H1 H2].
  rewrite newConstruct_unfold. repeat case_bool_decide; simpl; try done.
  assert (sanitizeId id ≠ name) by congruence.
  split.
  - rewrite children_of_register.
    rewrite decide_False by apply cons_neq_self. rewrite decide_True by done.
    apply elem_of_app. by left.
  - rewrite context_register, lookup_context_insert_ne; [done|].
    intros Hs. apply suffix_cons_inv in Hs as [E|Hs]; [congruence|].
    apply suffix_length in Hs. simpl in Hs. lia.
Qed.

Lemma preserves_setContext scope name v p key value :
  key ≠ lit "defaultBranchName" →
  preserves (Inv scope name v) (setContext p key value).
Proof.
  intros Hk w [H1 H2]. rewrite setContext_unfold.
  case_bool_decide; [by split|]. split; [done|].
  cbn [final context]. by rewrite lookup_context_setContext.
Qed.

Lemma preserves_isDefaultBranchAt I env c name :
  preserves I (Pipeline.isDefaultBranchAt env c name).
Proof. by intros w. Qed.

Lemma onDefaultBranch_Inv env w0 w scope name d :
  Inv scope name (lookup_context (context w0) scope (lit "defaultBranchName")) w →
  Pipeline.onDefaultBranch env w (name :: scope) d
  = Pipeline.onDefaultBranch env w0 scope d.
Proof.
  intros [_ H]. unfold Pipeline.onDefaultBranch, PDKPipeline.isDefaultBranch.
  cbn [idb_node idb_defaultBranchName node_of tryGetContext]. by rewrite H.
Qed.

Lemma quiet_isDefaultBranchAt π env c name :
  quiet π (Pipeline.isDefaultBranchAt env c name).
Proof. done. Qed.

Lemma no_throw_isDefaultBranchAt env c name :
  no_throw (Pipeline.isDefaultBranchAt env c name).
Proof. done. Qed.

(** *** The phases of the constructor *)

Ltac step_quiet :=
  first
    [ apply quiet_ret | apply quiet_throw | apply quiet_get | apply quiet_put
    | apply quiet_isDefaultBranchAt | apply quiet_setContext
    | apply quiet_emit; reflexivity
    | apply quiet_newConstruct; intros; reflexivity
    | apply quiet_forEach; intros ?
    | apply quiet_bind; [|intros ?]
    | case_match ].

Ltac step_no_throw :=
  first
    [ apply no_throw_ret | apply no_throw_get | apply no_throw_put
    | apply no_throw_emit
    | apply no_throw_isDefaultBranchAt | apply no_throw_setContext
    | apply no_throw_newConstruct
    | apply no_throw_forEach; intros ?
    | apply no_throw_bind; [|intros ?]
    | case_match ].

Ltac step_preserves :=
  first
    [ apply preserves_ret | apply preserves_throw | apply preserves_get
    | apply preserves_emit | apply preserves_isDefaultBranchAt
    | apply preserves_newConstruct_sibling
    | apply preserves_newConstruct_under; reflexivity
    | apply preserves_bind; [|intros ?]
    | case_match ].

Lemma no_throw_FeatureBranches scope id props :
  no_throw (FeatureBranches.new scope id props).
Proof. unfold FeatureBranches.new, FeatureBranches.forPrefix. repeat step_no_throw. Qed.

Lemma no_throw_repositorySource env scope this props :
  no_throw (Pipeline.repositorySource env scope this props).
Proof. unfold Pipeline.repositorySource. repeat step_no_throw. Qed.

Lemma no_throw_artifacts this id props source :
  no_throw (Pipeline.artifacts this id props source).
Proof. unfold Pipeline.artifacts. repeat step_no_throw. Qed.

Lemma no_throw_featureBranches env this props repo :
  no_throw (Pipeline.featureBranches env this props repo).
Proof.
  unfold Pipeline.featureBranches.
  repeat first [apply no_throw_FeatureBranches | step_no_throw].
Qed.

Lemma no_throw_repositoryOutput this repo :
  no_throw (Pipeline.repositoryOutput this repo).
Proof. unfold Pipeline.repositoryOutput. repeat step_no_throw. Qed.

Lemma preserves_validate I props : preserves I (Pipeline.validate props).
Proof. unfold Pipeline.validate. repeat step_preserves. Qed.

Lemma preserves_repositorySource env scope name v props :
  preserves (Inv scope name v)
    (Pipeline.repositorySource env scope (name :: scope) props).
Proof. unfold Pipeline.repositorySource. repeat step_preserves. Qed.

Lemma preserves_artifacts scope name v id props source :
  preserves (Inv scope name v) (Pipeline.artifacts (name :: scope) id props source).
Proof. unfold Pipeline.artifacts. repeat step_preserves. Qed.

Lemma no_throw_after_validation env scope this id props :
  no_throw
    (setContext this (lit "@aws-cdk/aws-s3:serverAccessLogsUseBucketPolicy") (VBool true) ;;
     let* repo_source := Pipeline.repositorySource env scope this props in
     let* pipeline := Pipeline.artifacts this id props (snd repo_source) in
     Pipeline.featureBranches env this props (fst repo_source) ;;
     Pipeline.repositoryOutput this (fst repo_source) ;;
     ret {| self := this;
            codePipeline := pipeline;
            codeRepository := fst repo_source;
            this_branchNamePrefixes := branchNamePrefixes props;
            this_defaultBranchName := defaultBranchName props;
            this_repositoryName := repositoryName props |}).
Proof.
  repeat first
    [ apply no_throw_repositorySource | apply no_throw_artifacts
    | apply no_throw_featureBranches | apply no_throw_repositoryOutput
    | apply no_throw_setContext | apply no_throw_ret
    | apply no_throw_bind; [|intros ?] ].
Qed.

(** The validation errors, in a scope that has accepted the id. *)
Lemma validation_errors env scope id props w message :
  accepts w scope id →
  let o := Pipeline.new env scope id props w in
  (result o = inl (Thrown message) ↔
     (provided (repositoryName props) = false
      ∧ provided (codestarConnectionArn props) = false
      ∧ message = lit "Either repositoryName or codestarConnectionArn must be provided")
     ∨ (provided (codestarConnectionArn props) = true
        ∧ provided (repositoryOwnerAndName props) = false
        ∧ message = lit "repositoryOwnerAndName is required when using codestarConnectionArn"))
  ∧ (result o = inl (Thrown message) →
     calls o = [New CPDKPipeline (sanitizeId id :: scope)]).
Proof.
  intros Hacc o. subst o. unfold Pipeline.new.
  rewrite result_bind, calls_bind, newConstruct_accepted by done.
  cbn [result final calls].
  rewrite result_bind, calls_bind. unfold Pipeline.validate.
  destruct (provided (repositoryName props)) eqn:Hr,
           (provided (codestarConnectionArn props)) eqn:Ha,
           (provided (repositoryOwnerAndName props)) eqn:Ho;
    cbn [negb andb throw ret result calls final app].
  all: try (split; [|intros H; exfalso; revert H; apply no_throw_after_validation];
         split; [intros H; exfalso; revert H; apply no_throw_after_validation
                |intros [(?&?&?)|(?&?&?)]; congruence]).
  all: (split; [|done]).
  all: split; [intros [= <-]|intros [(?&?&->)|(?&?&->)]]; try done; try congruence.
  all: auto.
Qed.

Lemma new_refused env scope id props w :
  ¬ accepts w scope id →
  result (Pipeline.new env scope id props w)
  = inl (if bool_decide (id = []) then EmptyConstructId
         else DuplicateConstruct scope (sanitizeId id))
  ∧ calls (Pipeline.new env scope id props w) = []
  ∧ final (Pipeline.new env scope id props w) = w.
Proof.
  intros Hacc. unfold Pipeline.new.
  rewrite result_bind, calls_bind, final_bind, newConstruct_unfold.
  destruct (decide (id = [])) as [->|Hid].
  - by rewrite !bool_decide_eq_true_2 by done.
  - rewrite (bool_decide_eq_false_2 (id = [])) by done.
    rewrite (bool_decide_eq_false_2 (sanitizeId id = []))
      by by rewrite sanitizeId_nil_iff.
    rewrite bool_decide_eq_true_2; [done|].
    destruct (decide (sanitizeId id ∈ children_of w scope)) as [|Hout]; [done|].
    exfalso. apply Hacc. split; [by rewrite sanitizeId_nil_iff|done].
Qed.

(** C1, amended. The constructor throws a validation error of its own
    exactly when the scope has accepted the construct id and the
    configuration is invalid in one of two ways: with the first message
    when neither a repository name nor a connection identifier is provided,
    with the second when a connection identifier is provided without an
    owner/name string. Both are thrown before any call that creates a
    resource: the only call made is the registration of the pipeline
    construct. No other configuration makes the constructor throw a
    validation error; other errors, of the construct tree, remain
    possible. *)
Theorem construction_validation env scope id props w message :
  let o := Pipeline.new env scope id props w in
  (result o = inl (Thrown message) ↔
     accepts w scope id
     ∧ ((provided (repositoryName props) = false
         ∧ provided (codestarConnectionArn props) = false
         ∧ message
           = lit "Either repositoryName or codestarConnectionArn must be provided")
        ∨ (provided (codestarConnectionArn props) = true
           ∧ provided (repositoryOwnerAndName props) = false
           ∧ message
             = lit "repositoryOwnerAndName is required when using codestarConnectionArn")))
  ∧ (result o = inl (Thrown message) →
     calls o = [New CPDKPipeline (sanitizeId id :: scope)]).
Proof.
  cbv zeta.
  destruct (decide (sanitizeId id ≠ [] ∧ sanitizeId id ∉ children_of w scope))
    as [Hacc|Hacc].
  - destruct (validation_errors env scope id props w message Hacc) as [Hiff Hcalls].
    split; [|exact Hcalls]. rewrite Hiff. split; [by split|by intros [_ ?]].
  - destruct (new_refused env scope id props w Hacc) as (Hr & _ & _).
    rewrite Hr. split; [split|].
    + by case_bool_decide.
    + by intros [? _].
    + by case_bool_decide.
Qed.

Lemma filter_calls_bind_quiet π {A B} (m : M A) (k : A → M B) w :
  quiet π m →
  List.filter π (calls (bind m k w)) =
  match result (m w) with
  | inl _ => []
  | inr a => List.filter π (calls (k a (final (m w))))
  end.
Proof.
  intros Hm. rewrite calls_bind, List.filter_app, Hm. by destruct (result (m w)).
Qed.

Lemma filter_calls_bind_quiet_r π {A B} (m : M A) (k : A → M B) w :
  (∀ a, quiet π (k a)) →
  List.filter π (calls (bind m k w)) = List.filter π (calls (m w)).
Proof.
  intros Hk. rewrite calls_bind, List.filter_app.
  destruct (result (m w)); [|rewrite Hk]; by rewrite app_nil_r.
Qed.

Lemma quiet_validate π props : quiet π (Pipeline.validate props).
Proof. unfold Pipeline.validate. repeat step_quiet. Qed.

Lemma quiet_project_repositorySource env scope this props :
  quiet is_project (Pipeline.repositorySource env scope this props).
Proof. unfold Pipeline.repositorySource. repeat step_quiet. Qed.

Lemma quiet_project_artifacts this id props source :
  quiet is_project (Pipeline.artifacts this id props source).
Proof. unfold Pipeline.artifacts. repeat step_quiet. Qed.

Lemma quiet_project_repositoryOutput this repo :
  quiet is_project (Pipeline.repositoryOutput this repo).
Proof. unfold Pipeline.repositoryOutput. repeat step_quiet. Qed.

Lemma quiet_tag_FeatureBranches scope id props :
  quiet is_tag (FeatureBranches.new scope id props).
Proof. unfold FeatureBranches.new, FeatureBranches.forPrefix. repeat step_quiet. Qed.

Lemma quiet_tag_repositorySource env scope this props :
  quiet is_tag (Pipeline.repositorySource env scope this props).
Proof. unfold Pipeline.repositorySource. repeat step_quiet. Qed.

Lemma quiet_tag_artifacts this id props source :
  quiet is_tag (Pipeline.artifacts this id props source).
Proof. unfold Pipeline.artifacts. repeat step_quiet. Qed.

Lemma quiet_tag_repositoryOutput this repo :
  quiet is_tag (Pipeline.repositoryOutput this repo).
Proof. unfold Pipeline.repositoryOutput. repeat step_quiet. Qed.

Lemma quiet_repository_FeatureBranches scope id props :
  quiet is_repository_call (FeatureBranches.new scope id props).
Proof. unfold FeatureBranches.new, FeatureBranches.forPrefix. repeat step_quiet. Qed.

Lemma quiet_repository_artifacts this id props source :
  quiet is_repository_call (Pipeline.artifacts this id props source).
Proof. unfold Pipeline.artifacts. repeat step_quiet. Qed.

Lemma quiet_repository_featureBranches env this props repo :
  quiet is_repository_call (Pipeline.featureBranches env this props repo).
Proof.
  unfold Pipeline.featureBranches.
  repeat first [apply quiet_repository_FeatureBranches | step_quiet].
Qed.

Lemma quiet_repository_repositoryOutput this repo :
  quiet is_repository_call (Pipeline.repositoryOutput this repo).
Proof. unfold Pipeline.repositoryOutput. repeat step_quiet. Qed.

(** Without prefixes the feature-branch construct creates no project. *)
Lemma quiet_project_FeatureBranches_nil scope id props :
  fb_branchNamePrefixes props = [] →
  quiet is_project (FeatureBranches.new scope id props).
Proof.
  intros H. unfold FeatureBranches.new. rewrite H. simpl forEach.
  repeat step_quiet.
Qed.

Lemma featureBranches_triggers env this props repo w :
  featureTriggers (calls (Pipeline.featureBranches env this props repo w)) ≠ [] →
  (∃ prefixes, branchNamePrefixes props = Some prefixes ∧ prefixes ≠ [])
  ∧ Pipeline.onDefaultBranch env w this (defaultBranchName props) = true.
Proof.
  unfold featureTriggers, Pipeline.featureBranches.
  destruct (branchNamePrefixes props) as [prefixes|]; [|done].
  rewrite filter_calls_bind_quiet by apply quiet_isDefaultBranchAt.
  cbn [Pipeline.isDefaultBranchAt bind get ret result final].
  destruct (Pipeline.onDefaultBranch env w this (defaultBranchName props)).
  - intros H. split; [|done]. exists prefixes. split; [done|]. intros ->.
    apply H. rewrite filter_calls_bind_quiet_r by (intros; apply quiet_ret).
    by apply quiet_project_FeatureBranches_nil.
  - intros H. exfalso. apply H.
    assert (Hq : quiet is_project
      (emit (AddTag (OnStackOf this) (lit "FeatureBranch") (Pipeline.branch_of env props)) ;;
       if provided (repositoryName props)
       then emit (AddTag (OnStackOf this) (lit "RepoName") (default [] (repositoryName props)))
       else ret tt)) by repeat step_quiet.
    apply Hq.
Qed.

Lemma s3_key_neq :
  lit "@aws-cdk/aws-s3:serverAccessLogsUseBucketPolicy" ≠ lit "defaultBranchName".
Proof. discriminate. Qed.

(** C5. A construction creates feature triggers only if prefixes are
    provided, their list is not empty, and the active branch is the default
    branch; in every other configuration it creates none. *)
Theorem feature_triggers_only_on_default env scope id props w :
  let o := Pipeline.new env scope id props w in
  (featureTriggers (calls o) ≠ [] →
   (∃ prefixes, branchNamePrefixes props = Some prefixes ∧ prefixes ≠ [])
   ∧ Pipeline.onDefaultBranch env w scope (defaultBranchName props) = true)
  ∧ (branchNamePrefixes props = None ∨ branchNamePrefixes props = Some []
     ∨ Pipeline.onDefaultBranch env w scope (defaultBranchName props) = false →
     featureTriggers (calls o) = []).
Proof.
  intros o.
  assert (Hmain : featureTriggers (calls o) ≠ [] →
   (∃ prefixes, branchNamePrefixes props = Some prefixes ∧ prefixes ≠ [])
   ∧ Pipeline.onDefaultBranch env w scope (defaultBranchName props) = true).
  { subst o. unfold featureTriggers, Pipeline.new. intros Hne.
    (* super(scope, id) *)
    rewrite filter_calls_bind_quiet in Hne by (by apply quiet_newConstruct).
    destruct (result (newConstruct CPDKPipeline scope id w)) as [?|this] eqn:E;
      [done|].
    apply newConstruct_inr in E as [Hacc ->].
    rewrite (newConstruct_accepted _ _ _ _ Hacc) in Hne. cbn [final] in Hne.
    pose proof (Inv_register w scope (sanitizeId id)) as HI.
    revert HI Hne. generalize (register w scope (sanitizeId id)). intros w1 HI Hne.
    (* the two checks *)
    rewrite filter_calls_bind_quiet in Hne by apply quiet_validate.
    destruct (result (Pipeline.validate props w1)); [done|].
    apply (preserves_validate _ props) in HI.
    revert HI Hne. generalize (final (Pipeline.validate props w1)). intros w2 HI Hne.
    (* the context flag *)
    rewrite filter_calls_bind_quiet in Hne by apply quiet_setContext.
    match type of Hne with context [result ?x] => destruct (result x); [done|] end.
    apply (preserves_setContext _ _ _ (sanitizeId id :: scope) _ (VBool true)
             s3_key_neq) in HI.
    revert HI Hne.
    match goal with |- context [final ?x] => generalize (final x) end.
    intros w3 HI Hne.
    (* the source *)
    rewrite filter_calls_bind_quiet in Hne by apply quiet_project_repositorySource.
    match type of Hne with context [result ?x] => destruct (result x) as [|rs]; [done|] end.
    apply (preserves_repositorySource env _ _ _ props) in HI.
    revert HI Hne.
    match goal with |- context [final ?x] => generalize (final x) end.
    intros w4 HI Hne.
    (* the buckets and the pipeline *)
    rewrite filter_calls_bind_quiet in Hne by apply quiet_project_artifacts.
    match type of Hne with context [result ?x] => destruct (result x) as [|pl]; [done|] end.
    apply (preserves_artifacts _ _ _ id props (snd rs)) in HI.
    revert HI Hne.
    match goal with |- context [final ?x] => generalize (final x) end.
    intros w5 HI Hne.
    (* the feature branches *)
    rewrite filter_calls_bind_quiet_r in Hne.
    2:{ intros ?. apply quiet_bind; [apply quiet_project_repositoryOutput|].
        intros ?. apply quiet_ret. }
    apply featureBranches_triggers in Hne as [Hp Hd].
    split; [done|]. by rewrite <- (onDefaultBranch_Inv env w w5 scope (sanitizeId id)). }
  split; [done|].
  intros Hoff. destruct (featureTriggers (calls o)) as [|e l] eqn:E; [done|].
  exfalso. destruct Hmain as [(prefixes & Hp & Hne) Hd]; [done|].
  destruct Hoff as [H|[H|H]]; congruence.
Qed.

Lemma filter_cons_false {A} (π : A → bool) (x : A) (l : list A) :
  π x = false → List.filter π (x :: l) = List.filter π l.
Proof. intros H. simpl. by rewrite H. Qed.

Lemma calls_validate props w : calls (Pipeline.validate props w) = [].
Proof. unfold Pipeline.validate. by repeat case_match. Qed.

Lemma calls_setContext p key value w : calls (setContext p key value w) = [].
Proof. rewrite setContext_unfold. by case_bool_decide. Qed.

(** A construction that completes went through every phase, each from a
    state in which the new construct still resolves [defaultBranchName] as
    its scope did at the start. *)
Lemma new_phases env scope id props w obj :
  result (Pipeline.new env scope id props w) = inr obj →
  accepts w scope id
  ∧ ∃ w3 rs w4 w5 w6,
      Inv scope (sanitizeId id)
        (lookup_context (context w) scope (lit "defaultBranchName")) w3
      ∧ result (Pipeline.repositorySource env scope (sanitizeId id :: scope) props w3)
        = inr rs
      ∧ Inv scope (sanitizeId id)
          (lookup_context (context w) scope (lit "defaultBranchName")) w5
      ∧ result (Pipeline.featureBranches env (sanitizeId id :: scope) props (fst rs) w5)
        = inr tt
      ∧ calls (Pipeline.new env scope id props w) =
        New CPDKPipeline (sanitizeId id :: scope)
        :: calls (Pipeline.repositorySource env scope (sanitizeId id :: scope) props w3)
        ++ calls (Pipeline.artifacts (sanitizeId id :: scope) id props (snd rs) w4)
        ++ calls (Pipeline.featureBranches env (sanitizeId id :: scope) props (fst rs) w5)
        ++ calls (Pipeline.repositoryOutput (sanitizeId id :: scope) (fst rs) w6).
Proof.
  unfold Pipeline.new. intros H.
  apply bind_inr in H as (this & E & H & ->).
  apply newConstruct_inr in E as [Hacc ->]. split; [done|].
  rewrite (newConstruct_accepted _ _ _ _ Hacc) in *. cbn [final calls] in *.
  pose proof (Inv_register w scope (sanitizeId id)) as HI.
  revert HI H. generalize (register w scope (sanitizeId id)). intros w1 HI H.
  apply bind_inr in H as ([] & _ & H & ->). rewrite calls_validate.
  apply (preserves_validate _ props) in HI.
  revert HI H. generalize (final (Pipeline.validate props w1)). intros w2 HI H.
  apply bind_inr in H as ([] & _ & H & ->). rewrite calls_setContext.
  apply (preserves_setContext _ _ _ (sanitizeId id :: scope) _ (VBool true)
           s3_key_neq) in HI.
  revert HI H. match goal with |- context [final ?x] => generalize (final x) end.
  intros w3 HI3 H.
  apply bind_inr in H as (rs & Ers & H & ->).
  pose proof (preserves_repositorySource env _ _ _ props _ HI3) as HI.
  revert HI H. match goal with |- context [final ?x] => generalize (final x) end.
  intros w4 HI H.
  apply bind_inr in H as (pl & _ & H & ->).
  apply (preserves_artifacts _ _ _ id props (snd rs)) in HI.
  revert HI H. match goal with |- context [final ?x] => generalize (final x) end.
  intros w5 HI5 H.
  apply bind_inr in H as ([] & Efb & H & ->).
  revert H. match goal with |- context [final ?x] => generalize (final x) end.
  intros w6 H.
  apply bind_inr in H as ([] & _ & _ & ->).
  exists w3, rs, w4, w5, w6.
  split; [exact HI3|]. split; [done|]. split; [exact HI5|]. split; [done|].
  rewrite !app_nil_l, app_nil_r. reflexivity.
Qed.

Lemma isDefaultBranchAt_run env c d w :
  Pipeline.isDefaultBranchAt env c d w =
  {| final := w; calls := []; result := inr (Pipeline.onDefaultBranch env w c d) |}.
Proof. done. Qed.

Lemma provided_Some name : name ≠ [] → provided (Some name) = true.
Proof. by destruct name. Qed.

Lemma provided_inv o : provided o = true → ∃ name, o = Some name ∧ name ≠ [].
Proof. destruct o as [[|c s]|]; try done. intros _. by exists (c :: s). Qed.

(** The calls of the source phase, when it completes. *)
Lemma repositorySource_calls env scope this props w rs name :
  repositoryName props = Some name → name ≠ [] →
  result (Pipeline.repositorySource env scope this props w) = inr rs →
  calls (Pipeline.repositorySource env scope this props w) =
  if Pipeline.onDefaultBranch env w this (defaultBranchName props) then
    [New (CRepository name) (lit "CodeRepository" :: this);
     ApplyRemovalPolicy (lit "CodeRepository" :: this)
       (default RETAIN (codeCommitRemovalPolicy props))]
  else [New (CImportedRepository name) (lit "CodeRepository" :: scope)].
Proof.
  intros Hn Hne. unfold Pipeline.repositorySource.
  rewrite Hn, provided_Some by done. cbn [default].
  rewrite result_bind, calls_bind, isDefaultBranchAt_run. cbn [result final calls app].
  destruct (Pipeline.onDefaultBranch env w this (defaultBranchName props)).
  - rewrite result_bind, calls_bind. rewrite result_bind, calls_bind.
    rewrite newConstruct_unfold.
    repeat case_bool_decide; cbn [result final calls app]; done.
  - rewrite result_bind, calls_bind. rewrite newConstruct_unfold.
    repeat case_bool_decide; cbn [result final calls app]; done.
Qed.

(** C7. A construction with a hosted repository reference that completes
    makes, on the default branch, one repository and sets its removal
    policy to the caller's, or to retain without one; on another branch it
    imports the repository by name and makes none. These are its only
    calls that create, import or set the policy of a repository. *)
Theorem hosted_repository env scope id props w obj name :
  repositoryName props = Some name → name ≠ [] →
  result (Pipeline.new env scope id props w) = inr obj →
  repositoryCalls (calls (Pipeline.new env scope id props w)) =
  if Pipeline.onDefaultBranch env w scope (defaultBranchName props) then
    [New (CRepository name) (lit "CodeRepository" :: sanitizeId id :: scope);
     ApplyRemovalPolicy (lit "CodeRepository" :: sanitizeId id :: scope)
       (default RETAIN (codeCommitRemovalPolicy props))]
  else [New (CImportedRepository name) (lit "CodeRepository" :: scope)].
Proof.
  intros Hn Hne H.
  apply new_phases in H as (_ & w3 & rs & w4 & w5 & w6 & HI & Ers & _ & _ & ->).
  unfold repositoryCalls.
  rewrite filter_cons_false by done. rewrite !List.filter_app.
  rewrite (quiet_repository_artifacts (sanitizeId id :: scope) id props rs.2 w4),
    (quiet_repository_featureBranches env (sanitizeId id :: scope) props rs.1 w5),
    (quiet_repository_repositoryOutput (sanitizeId id :: scope) rs.1 w6), !app_nil_r.
  rewrite (repositorySource_calls _ _ _ _ _ _ _ Hn Hne Ers).
  rewrite (onDefaultBranch_Inv env w w3 scope (sanitizeId id)) by done.
  by destruct (Pipeline.onDefaultBranch env w scope (defaultBranchName props)).
Qed.

Lemma branch_of_signal env props branch :
  BRANCH env = Some branch → branch ≠ [] → Pipeline.branch_of env props = branch.
Proof. unfold Pipeline.branch_of. intros -> H. by destruct branch. Qed.

(** The calls of the feature-branch phase off the default branch. *)
Lemma featureBranches_tags env this props repo w prefixes :
  branchNamePrefixes props = Some prefixes →
  Pipeline.onDefaultBranch env w this (defaultBranchName props) = false →
  result (Pipeline.featureBranches env this props repo w) = inr tt
  ∧ calls (Pipeline.featureBranches env this props repo w) =
    AddTag (OnStackOf this) (lit "FeatureBranch") (Pipeline.branch_of env props)
    :: match repositoryName props with
       | Some (c :: name) => [AddTag (OnStackOf this) (lit "RepoName") (c :: name)]
       | _ => []
       end.
Proof.
  intros Hp Hd. unfold Pipeline.featureBranches. rewrite Hp.
  rewrite result_bind, calls_bind, isDefaultBranchAt_run. cbn [result final calls app].
  rewrite Hd. by destruct (repositoryName props) as [[|c name]|].
Qed.

(** C10. A construction that completes with prefixes provided, be the
    list empty, and off the default branch tags the stack of the pipeline
    with [FeatureBranch], the raw branch string, and with [RepoName], the
    repository name, when one is provided; it adds no other tag. *)
Theorem stack_tags_off_default env scope id props w obj prefixes :
  branchNamePrefixes props = Some prefixes →
  Pipeline.onDefaultBranch env w scope (defaultBranchName props) = false →
  result (Pipeline.new env scope id props w) = inr obj →
  ∃ branch,
    BRANCH env = Some branch
    ∧ tagsAdded (calls (Pipeline.new env scope id props w)) =
      AddTag (OnStackOf (sanitizeId id :: scope)) (lit "FeatureBranch") branch
      :: match repositoryName props with
         | Some (c :: name) =>
             [AddTag (OnStackOf (sanitizeId id :: scope)) (lit "RepoName") (c :: name)]
         | _ => []
         end.
Proof.
  intros Hp Hd H.
  destruct (not_default_branch_set _ _ Hd) as (branch & Hb & Hne & _).
  exists branch. split; [done|].
  apply new_phases in H as (_ & w3 & rs & w4 & w5 & w6 & _ & _ & HI & _ & ->).
  unfold tagsAdded.
  rewrite filter_cons_false by done. rewrite !List.filter_app.
  rewrite (quiet_tag_repositorySource env scope (sanitizeId id :: scope) props w3),
    (quiet_tag_artifacts (sanitizeId id :: scope) id props rs.2 w4),
    (quiet_tag_repositoryOutput (sanitizeId id :: scope) rs.1 w6), app_nil_r, !app_nil_l.
  rewrite <- (onDefaultBranch_Inv env w w5 scope (sanitizeId id)) in Hd by done.
  destruct (featureBranches_tags env _ props rs.1 w5 prefixes Hp Hd) as [_ ->].
  rewrite (branch_of_signal _ _ _ Hb Hne).
  by destruct (repositoryName props) as [[|c name]|].
Qed.

(** ** Feature-branch fan-out *)

Lemma projectName_not_nil prefix : projectName prefix ≠ [].
Proof. unfold projectName. by rewrite sanitizeId_nil_iff. Qed.

Lemma featureTriggers_projectCalls props fb prefixes :
  featureTriggers (flat_map (projectCalls props fb) prefixes)
  = map (projectOf props fb) prefixes.
Proof.
  unfold featureTriggers.
  induction prefixes as [|x l IH]; [done|]. simpl. by rewrite IH.
Qed.

Section ForEachPrefix.

Variables (props : FeatureBranchesProps) (fb : Path).

Lemma forPrefix_fresh prefix w :
  projectName prefix ∉ children_of w fb →
  FeatureBranches.forPrefix props fb prefix w =
  {| final := register w fb (projectName prefix);
     calls := projectCalls props fb prefix;
     result := inr tt |}.
Proof.
  intros H. unfold FeatureBranches.forPrefix, bind.
  rewrite newConstruct_accepted; [done|]. split; [apply projectName_not_nil|done].
Qed.

Lemma forPrefix_taken prefix w :
  projectName prefix ∈ children_of w fb →
  FeatureBranches.forPrefix props fb prefix w =
  {| final := w; calls := [];
     result := inl (DuplicateConstruct fb (projectName prefix)) |}.
Proof.
  intros H. unfold FeatureBranches.forPrefix, bind. rewrite newConstruct_unfold.
  rewrite bool_decide_eq_false_2 by apply projectName_not_nil.
  by rewrite bool_decide_eq_true_2.
Qed.

Lemma children_of_register_scope w name :
  children_of (register w fb name) fb = children_of w fb ++ [name].
Proof.
  rewrite children_of_register.
  rewrite decide_False by apply cons_neq_self. by rewrite decide_True.
Qed.

(** Distinct names: every prefix gets its project, in the order of the list. *)
Lemma forEach_distinct prefixes w :
  NoDup (children_of w fb ++ map projectName prefixes) →
  result (forEach prefixes (FeatureBranches.forPrefix props fb) w) = inr tt
  ∧ calls (forEach prefixes (FeatureBranches.forPrefix props fb) w) = flat_map (projectCalls props fb) prefixes.
Proof.
  revert w. induction prefixes as [|x l IH]; intros w Hnd; [done|].
  cbn [forEach map flat_map] in *.
  assert (Hx : projectName x ∉ children_of w fb).
  { apply NoDup_app in Hnd as (_ & Hd & _). intros Hin.
    apply (Hd _ Hin). by left. }
  rewrite result_bind, calls_bind, forPrefix_fresh by done. cbn [result final calls].
  destruct (IH (register w fb (projectName x))) as [-> ->]; [|done].
  rewrite children_of_register_scope, <- app_assoc. done.
Qed.

(** A repeated name: the tree refuses it, and the construction fails. *)
Lemma forEach_repeated prefixes w :
  NoDup (children_of w fb) →
  ¬ NoDup (children_of w fb ++ map projectName prefixes) →
  ∃ name, name ∈ map projectName prefixes
          ∧ result (forEach prefixes (FeatureBranches.forPrefix props fb) w) = inl (DuplicateConstruct fb name).
Proof.
  revert w. induction prefixes as [|x l IH]; intros w Hnd Hdup.
  - exfalso. apply Hdup. by rewrite app_nil_r.
  - cbn [forEach map] in *. rewrite result_bind.
    destruct (decide (projectName x ∈ children_of w fb)) as [Hin|Hx].
    + exists (projectName x). split; [by left|]. by rewrite forPrefix_taken.
    + rewrite forPrefix_fresh by done. cbn [result final].
      destruct (IH (register w fb (projectName x))) as (name & Hin & ->).
      * rewrite children_of_register_scope. apply NoDup_app.
        split; [done|]. split; [|apply NoDup_singleton].
        intros y Hy ->%list_elem_of_singleton. done.
      * by rewrite children_of_register_scope, <- app_assoc.
      * exists name. split; [by right|done].
Qed.

End ForEachPrefix.

(** C6, as worded, fails on a repeated prefix: the second project takes the
    name of the first, the construct tree refuses it, and the construction
    stops with an error after a single trigger. *)
Lemma repeated_prefix_counterexample :
  let w := {| children := ∅; context := ∅; aspects := ∅ |} in
  let props :=
    {| fb_branchNamePrefixes := [lit "feature"; lit "feature"];
       fb_connectionArn := None; fb_repositoryOwnerAndName := None;
       fb_repository := None; fb_repositoryType := codecommit;
       fb_defaultBranchName := lit "mainline"; fb_cdkCommand := None;
       fb_codeBuildDefaults := None; fb_dockerEnabledForSynth := None |} in
  let o := FeatureBranches.new [lit "Pipeline"] (lit "FeatureBranchPipelines") props w in
  result o =
    inl (DuplicateConstruct [lit "FeatureBranchPipelines"; lit "Pipeline"]
           (lit "FeaturePipeline-feature"))
  ∧ length (featureTriggers (calls o)) = 1%nat.
Proof. split; vm_compute; reflexivity. Qed.

(** C6, amended. The feature-branch construct, once its scope has accepted
    it, creates one project per prefix, in the order of the list, neither
    sorted nor deduplicated, provided the names of the projects (the
    prefixes after ["FeaturePipeline-"], with ["/"] written ["--"]) are
    pairwise distinct; when two of them coincide, as for a prefix listed
    twice, the construct tree refuses the second and the construction fails
    with that error. *)
Theorem fan_out_one_project_per_prefix scope id props w :
  accepts w scope id →
  let fb := sanitizeId id :: scope in
  let prefixes := fb_branchNamePrefixes props in
  let o := FeatureBranches.new scope id props w in
  (NoDup (map projectName prefixes) →
   result o = inr fb
   ∧ calls o = New CFeatureBranches fb :: flat_map (projectCalls props fb) prefixes
   ∧ featureTriggers (calls o) = map (projectOf props fb) prefixes)
  ∧ (¬ NoDup (map projectName prefixes) →
     ∃ name, name ∈ map projectName prefixes
             ∧ result o = inl (DuplicateConstruct fb name)).
Proof.
  intros Hacc fb prefixes o. subst o. unfold FeatureBranches.new.
  rewrite result_bind, calls_bind, newConstruct_accepted by done.
  cbn [result final calls]. fold fb.
  rewrite result_bind, calls_bind.
  assert (Hfresh : children_of (register w scope (sanitizeId id)) fb = []).
  { rewrite children_of_register. by rewrite decide_True. }
  split.
  - intros Hnd.
    destruct (forEach_distinct props fb prefixes (register w scope (sanitizeId id)))
      as [Hr Hc].
    { by rewrite Hfresh. }
    fold prefixes. rewrite Hr, Hc. cbn [ret result calls app].
    rewrite app_nil_r. repeat split; try done.
    change (featureTriggers (New CFeatureBranches fb :: ?l)) with (featureTriggers l).
    apply featureTriggers_projectCalls.
  - intros Hdup.
    destruct (forEach_repeated props fb prefixes (register w scope (sanitizeId id)))
      as (name & Hin & Hr).
    { rewrite Hfresh. apply NoDup_nil_2. }
    { by rewrite Hfresh. }
    exists name. split; [done|]. fold prefixes. by rewrite Hr.
Qed.

(** ** Adding a stage *)

Lemma forEach_emit {A} (l : list A) (f : A → Event) w :
  forEach l (fun a => emit (f a)) w =
  {| final := w; calls := map f l; result := inr tt |}.
Proof.
  induction l as [|a l IH]; [done|].
  cbn [forEach]. unfold bind. cbn [emit result final calls]. by rewrite IH.
Qed.

(** The tags [addStage] puts on a stage. *)
Lemma tagStage_run env this stage w :
  Pipeline.tagStage env this stage w =
  {| final := w;
     calls :=
       if bool_decide (is_Some (this_branchNamePrefixes this))
          && negb (Pipeline.onDefaultBranch env w stage (this_defaultBranchName this))
       then
         AddTag (OnConstruct stage) (lit "FeatureBranch") (PDKPipeline.env_branch env)
         :: match this_repositoryName this with
            | Some (c :: name) =>
                [AddTag (OnConstruct stage) (lit "RepoName") (c :: name)]
            | _ => []
            end
       else [];
     result := inr tt |}.
Proof.
  unfold Pipeline.tagStage, bind. rewrite isDefaultBranchAt_run. cbn [result final calls].
  destruct (bool_decide _ && negb _); [|done].
  by destruct (this_repositoryName this) as [[|c name]|].
Qed.

(** C4. [addStage] tags the stage when prefixes are provided and the branch
    is not the default branch: with [FeatureBranch], the raw value of the
    branch signal, and with [RepoName], the repository name, when one is
    provided. Otherwise it adds no tag. After passing the aspects of the
    root on to the stage it hands over to the stage-attachment primitive of
    the underlying pipeline, whose outcome is its own. *)
Theorem addStage_tags_then_delegates {AddStageOpts StageDeployment : Type}
  (codePipeline_addStage : Path → Path → option AddStageOpts → M StageDeployment)
  env this stage options w :
  let o := Pipeline.addStage codePipeline_addStage env this stage options w in
  let delegated := codePipeline_addStage (codePipeline this) stage options w in
  let tagged :=
    bool_decide (is_Some (this_branchNamePrefixes this))
    && negb (Pipeline.onDefaultBranch env w stage (this_defaultBranchName this)) in
  result o = result delegated
  ∧ final o = final delegated
  ∧ calls o =
    (if tagged then
       AddTag (OnConstruct stage) (lit "FeatureBranch") (PDKPipeline.env_branch env)
       :: match this_repositoryName this with
          | Some (c :: name) =>
              [AddTag (OnConstruct stage) (lit "RepoName") (c :: name)]
          | _ => []
          end
     else [])
    ++ map (AddAspect stage) (aspects_of w [])
    ++ calls delegated
  ∧ (if tagged then BRANCH env = Some (PDKPipeline.env_branch env) else True).
Proof.
  intros o delegated tagged. subst o delegated.
  unfold Pipeline.addStage, Pipeline.propagateAspects, Pipeline.root_of.
  rewrite !result_bind, !final_bind, !calls_bind, tagStage_run.
  cbn [result final calls get]. unfold bind at 1 2 3. cbn [get result final calls].
  rewrite !forEach_emit. cbn [result final calls app].
  repeat split; try done.
  subst tagged. destruct (bool_decide _); [|done]. cbn [andb].
  destruct (Pipeline.onDefaultBranch _ _ _ _) eqn:E; [done|]. cbn [negb].
  destruct (not_default_branch_set _ _ E) as (b & Hb & _ & Hb'). congruence.
Qed.

(** ** The empty branch signal *)

Lemma quiet_bind_default_true π {B} c d (k : bool → M B) :
  quiet π (k true) →
  quiet π (bind (Pipeline.isDefaultBranchAt {| BRANCH := Some [] |} c d) k).
Proof. intros H w. rewrite calls_bind, isDefaultBranchAt_run. apply H. Qed.

Lemma quiet_feature_path_FeatureBranches scope id props :
  quiet is_feature_path_call (FeatureBranches.new scope id props).
Proof. unfold FeatureBranches.new, FeatureBranches.forPrefix. repeat step_quiet. Qed.

Lemma quiet_feature_path_empty_signal scope id props :
  quiet is_feature_path_call (Pipeline.new {| BRANCH := Some [] |} scope id props).
Proof.
  unfold Pipeline.new, Pipeline.repositorySource, Pipeline.featureBranches,
    Pipeline.artifacts, Pipeline.repositoryOutput, Pipeline.validate.
  repeat first
    [ apply quiet_bind_default_true
    | apply quiet_feature_path_FeatureBranches
    | step_quiet ].
Qed.

(** C9. An empty branch signal makes every resolution answer true, whatever
    default name is configured, as an absent signal does; the constructor
    then runs as it does without a signal, on the default-branch path: it
    neither imports the repository nor tags the stack, and [addStage] tags
    no stage. *)
Theorem empty_signal_is_default :
  (∀ props, PDKPipeline.isDefaultBranch {| BRANCH := Some [] |} props = true)
  ∧ (∀ props, PDKPipeline.isDefaultBranch {| BRANCH := Some [] |} props
              = PDKPipeline.isDefaultBranch {| BRANCH := None |} props)
  ∧ (∀ scope id props w,
       Pipeline.new {| BRANCH := Some [] |} scope id props w
       = Pipeline.new {| BRANCH := None |} scope id props w)
  ∧ (∀ scope id props w,
       featurePathCalls (calls (Pipeline.new {| BRANCH := Some [] |} scope id props w))
       = [])
  ∧ (∀ this stage w, calls (Pipeline.tagStage {| BRANCH := Some [] |} this stage w) = []).
Proof.
  split; [done|]. split; [done|]. split; [done|]. split.
  - intros scope id props w. apply quiet_feature_path_empty_signal.
  - intros this stage w. rewrite tagStage_run. by rewrite andb_false_r.
Qed.

(** ** The sample OpenAPI file *)

Lemma split_lines_line (l rest : jsstring) :
  plain l →
  Yaml.split_lines (l ++ OpenApiDefinition.nl ++ rest) = l :: Yaml.split_lines rest.
Proof.
  induction 1 as [|c l Hc _ IH]; [done|].
  cbn [app Yaml.split_lines]. rewrite IH.
  by rewrite (proj2 (N.eqb_neq c 10) Hc).
Qed.

Lemma split_lines_line2 (a b rest : jsstring) :
  plain a → plain b →
  Yaml.split_lines (a ++ b ++ OpenApiDefinition.nl ++ rest)
  = (a ++ b) :: Yaml.split_lines rest.
Proof.
  intros Ha Hb. rewrite app_assoc. apply split_lines_line. by apply Forall_app.
Qed.

Lemma plain_lit_decide (s : string) :
  bool_decide (plain (lit s)) = true → plain (lit s).
Proof. apply bool_decide_eq_true_1. Qed.

Ltac plain_lit := apply plain_lit_decide; vm_compute; reflexivity.

Lemma handler_firstLanguage options :
  OpenApiDefinition.handler options =
  match firstLanguage options with
  | [] => []
  | c :: l =>
      OpenApiDefinition.nl ++ lit "      x-handler:" ++ OpenApiDefinition.nl
      ++ lit "        language: " ++ c :: l
  end.
Proof.
  unfold OpenApiDefinition.handler, OpenApiDefinition.firstHandlerLanguage, firstLanguage.
  by destruct (handlerLanguages options) as [[|[|c l] ls]|].
Qed.

Lemma split_lines_contents options :
  plain (title (openApiOptions options)) →
  plain (firstLanguage options) →
  Yaml.split_lines (OpenApiDefinition.contents options) =
  [lit "openapi: 3.0.3"; lit "info:"; lit "  version: 1.0.0";
   lit "  title: " ++ title (openApiOptions options);
   lit "paths:"; lit "  /hello:"; lit "    get:"; lit "      operationId: sayHello"]
  ++ match firstLanguage options with
     | [] => []
     | c :: l => [lit "      x-handler:"; lit "        language: " ++ c :: l]
     end
  ++ Yaml.split_lines OpenApiDefinition.operation_and_schemas.
Proof.
  intros Ht Hl. unfold OpenApiDefinition.contents. rewrite handler_firstLanguage.
  unfold OpenApiDefinition.lines, OpenApiDefinition.line. cbn [map concat].
  rewrite <- ?app_assoc. cbn [app].
  do 3 (rewrite split_lines_line by plain_lit).
  rewrite split_lines_line2 by (first [plain_lit | exact Ht]).
  do 3 (rewrite split_lines_line by plain_lit).
  destruct (firstLanguage options) as [|c l].
  - rewrite app_nil_l. rewrite split_lines_line by plain_lit. reflexivity.
  - rewrite <- ?app_assoc.
    do 2 (rewrite split_lines_line by plain_lit).
    rewrite split_lines_line2 by (first [plain_lit | exact Hl]).
    reflexivity.
Qed.

Section SampleFiles.

Variable path_join : jsstring → jsstring → jsstring.

Lemma synthesize_present (dir : jsstring) (f : SampleFile) (fs : gmap jsstring jsstring) :
  is_Some (fs !! path_join dir (filePath f)) → synthesize path_join dir f fs = fs.
Proof. intros [c H]. unfold synthesize. by rewrite H. Qed.

Lemma synthesize_keeps (dir : jsstring) (f : SampleFile) (fs : gmap jsstring jsstring) k :
  is_Some (fs !! k) → is_Some (synthesize path_join dir f fs !! k).
Proof.
  intros H. unfold synthesize.
  destruct (fs !! path_join dir (filePath f)) eqn:E; [done|].
  rewrite lookup_insert. by case_decide.
Qed.

Lemma synthesize_writes (dir : jsstring) (f : SampleFile) (fs : gmap jsstring jsstring) :
  is_Some (synthesize path_join dir f fs !! path_join dir (filePath f)).
Proof.
  unfold synthesize.
  destruct (fs !! path_join dir (filePath f)) eqn:E; [by rewrite E|].
  by rewrite lookup_insert_eq.
Qed.

Lemma synth_files_keeps (dir : jsstring) (l : list SampleFile) (fs : gmap jsstring jsstring) k :
  is_Some (fs !! k) →
  is_Some (foldl (fun fs f => synthesize path_join dir f fs) fs l !! k).
Proof.
  revert fs. induction l as [|f l IH]; intros fs H; [done|].
  simpl. by apply IH, synthesize_keeps.
Qed.

Lemma synth_files_writes (dir : jsstring) (l : list SampleFile) (fs : gmap jsstring jsstring) f :
  f ∈ l →
  is_Some (foldl (fun fs f => synthesize path_join dir f fs) fs l
           !! path_join dir (filePath f)).
Proof.
  revert fs. induction l as [|g l IH]; intros fs Hin.
  - by apply elem_of_nil in Hin.
  - simpl. apply elem_of_cons in Hin as [->|Hin]; [|by apply IH].
    apply synth_files_keeps, synthesize_writes.
Qed.

Lemma synth_files_present (dir : jsstring) (l : list SampleFile) (fs : gmap jsstring jsstring) :
  (∀ f, f ∈ l → is_Some (fs !! path_join dir (filePath f))) →
  foldl (fun fs f => synthesize path_join dir f fs) fs l = fs.
Proof.
  induction l as [|f l IH]; intros H; [done|]. simpl.
  rewrite synthesize_present by (apply H; by left).
  apply IH. intros g Hg. apply H. by right.
Qed.

Lemma synth_idempotent (project : Project) (fs : gmap jsstring jsstring) :
  synth path_join project (synth path_join project fs) = synth path_join project fs.
Proof.
  unfold synth. apply synth_files_present.
  intros f Hf. by apply synth_files_writes.
Qed.

Lemma synthesize_lookup (dir : jsstring) (f : SampleFile)
  (fs : gmap jsstring jsstring) (k : jsstring) :
  synthesize path_join dir f fs !! k =
  match fs !! k with
  | Some v => Some v
  | None => if decide (k = path_join dir (filePath f)) then Some (sf_contents f) else None
  end.
Proof.
  unfold synthesize.
  destruct (fs !! path_join dir (filePath f)) as [v|] eqn:E.
  - destruct (fs !! k) as [v'|] eqn:E'; [done|].
    case_decide; [congruence|done].
  - destruct (decide (k = path_join dir (filePath f))) as [->|Hk].
    + by rewrite lookup_insert_eq, E.
    + rewrite lookup_insert_ne by done. by destruct (fs !! k).
Qed.

Lemma synth_files_lookup_Some (dir : jsstring) (l : list SampleFile)
  (fs : gmap jsstring jsstring) (k v : jsstring) :
  fs !! k = Some v →
  foldl (fun fs f => synthesize path_join dir f fs) fs l !! k = Some v.
Proof.
  revert fs. induction l as [|f l IH]; intros fs H; [done|].
  cbn [foldl]. apply IH. by rewrite synthesize_lookup, H.
Qed.

Lemma synth_files_lookup_None (dir : jsstring) (l : list SampleFile)
  (fs : gmap jsstring jsstring) (k : jsstring) :
  fs !! k = None →
  Forall (fun f => path_join dir (filePath f) ≠ k) l →
  foldl (fun fs f => synthesize path_join dir f fs) fs l !! k = None.
Proof.
  intros H Hl. revert fs H. induction Hl as [|f l Hf _ IH]; intros fs H; [done|].
  cbn [foldl]. apply IH. rewrite synthesize_lookup, H.
  by rewrite decide_False by done.
Qed.

(** The project with the writer: its synthesis is the synthesis of the
    project, followed by the synthesis of the sample file. *)
Lemma synth_new (openApiSpecificationPath : jsstring) (project : Project)
  (options : OpenApiDefinitionOptions) (fs : gmap jsstring jsstring) :
  synth path_join (OpenApiDefinition.new openApiSpecificationPath project options) fs
  = synthesize path_join (outdir project)
      {| filePath := openApiSpecificationPath;
         sf_contents := OpenApiDefinition.contents options |}
      (synth path_join project fs).
Proof.
  unfold synth, OpenApiDefinition.new. cbn [components outdir].
  by rewrite foldl_app.
Qed.


End SampleFiles.


(** ** Constructions that complete *)

Lemma result_bind_inr {A B} (m : M A) (k : A → M B) w a :
  result (m w) = inr a → result (bind m k w) = result (k a (final (m w))).
Proof. intros H. by rewrite result_bind, H. Qed.

Lemma final_bind_inr {A B} (m : M A) (k : A → M B) w a :
  result (m w) = inr a → final (bind m k w) = final (k a (final (m w))).
Proof. intros H. by rewrite final_bind, H. Qed.

Lemma calls_bind_inr {A B} (m : M A) (k : A → M B) w a :
  result (m w) = inr a →
  calls (bind m k w) = calls (m w) ++ calls (k a (final (m w))).
Proof. intros H. by rewrite calls_bind, H. Qed.

Lemma result_ret {A} (a : A) w : result (ret a w) = inr a.
Proof. done. Qed.

Lemma final_ret {A} (a : A) w : final (ret a w) = w.
Proof. done. Qed.

Lemma calls_ret {A} (a : A) w : calls (ret a w) = [].
Proof. done. Qed.

Lemma result_emit e w : result (emit e w) = inr tt.
Proof. done. Qed.

Lemma final_emit e w : final (emit e w) = w.
Proof. done. Qed.

Lemma calls_emit e w : calls (emit e w) = [e].
Proof. done. Qed.

Lemma isDefaultBranchAt_result env c d w :
  result (Pipeline.isDefaultBranchAt env c d w)
  = inr (Pipeline.onDefaultBranch env w c d).
Proof. done. Qed.

Lemma isDefaultBranchAt_final env c d w :
  final (Pipeline.isDefaultBranchAt env c d w) = w.
Proof. done. Qed.

Lemma isDefaultBranchAt_calls env c d w :
  calls (Pipeline.isDefaultBranchAt env c d w) = [].
Proof. done. Qed.

(** A step of a sequence whose first part is known to succeed. *)
Ltac bind_step E :=
  rewrite ?(result_bind_inr _ _ _ _ E), ?(final_bind_inr _ _ _ _ E),
    ?(calls_bind_inr _ _ _ _ E);
  cbv beta.

Lemma Kids_register scope name w :
  Kids scope name (children_of w scope ++ [name]) [] (register w scope name).
Proof.
  split; rewrite children_of_register.
  - rewrite decide_False by apply cons_neq_self. by rewrite decide_True.
  - by rewrite decide_True.
Qed.

Lemma setContext_Kids scope name A key value w :
  Kids scope name A [] w →
  result (setContext (name :: scope) key value w) = inr tt
  ∧ Kids scope name A [] (final (setContext (name :: scope) key value w)).
Proof.
  intros [HA HB]. rewrite setContext_unfold, HB.
  by rewrite bool_decide_eq_false_2 by (by intros ?).
Qed.

(** A child added to the pipeline construct. *)
Lemma newConstruct_child scope name A B c id w :
  Kids scope name A B w → id ≠ [] → sanitizeId id ∉ B →
  result (newConstruct c (name :: scope) id w) = inr (sanitizeId id :: name :: scope)
  ∧ Kids scope name A (B ++ [sanitizeId id])
      (final (newConstruct c (name :: scope) id w)).
Proof.
  intros [HA HB] Hid Hfresh.
  rewrite newConstruct_accepted.
  2:{ split; [by rewrite sanitizeId_nil_iff|by rewrite HB]. }
  split; [done|]. cbn [final]. split; rewrite children_of_register.
  - rewrite decide_False by (intros E; apply (f_equal length) in E; simpl in E; lia).
    by rewrite decide_False by apply cons_neq_self.
  - rewrite decide_False by apply cons_neq_self. rewrite decide_True by done.
    by rewrite HB.
Qed.

(** A sibling added to the scope of the pipeline construct. *)
Lemma newConstruct_sibling scope name A B c id w :
  Kids scope name A B w → name ∈ A → id ≠ [] → sanitizeId id ∉ A →
  result (newConstruct c scope id w) = inr (sanitizeId id :: scope)
  ∧ Kids scope name (A ++ [sanitizeId id]) B (final (newConstruct c scope id w)).
Proof.
  intros [HA HB] Hname Hid Hfresh.
  rewrite newConstruct_accepted.
  2:{ split; [by rewrite sanitizeId_nil_iff|by rewrite HA]. }
  split; [done|]. cbn [final]. split; rewrite children_of_register.
  - rewrite decide_False by apply cons_neq_self. rewrite decide_True by done.
    by rewrite HA.
  - rewrite decide_False by (intros [= E]; rewrite E in Hname; done).
    rewrite decide_False by (intros E; symmetry in E; by apply cons_neq_self in E).
    done.
Qed.

Lemma validate_valid props w :
  validConfig props = true →
  Pipeline.validate props w = {| final := w; calls := []; result := inr tt |}.
Proof.
  unfold validConfig, Pipeline.validate.
  by destruct (provided (repositoryName props)),
              (provided (codestarConnectionArn props)),
              (provided (repositoryOwnerAndName props)).
Qed.

Lemma validate_inr props w u :
  result (Pipeline.validate props w) = inr u → validConfig props = true.
Proof.
  unfold validConfig, Pipeline.validate.
  by destruct (provided (repositoryName props)),
              (provided (codestarConnectionArn props)),
              (provided (repositoryOwnerAndName props)).
Qed.

Ltac literal_ids :=
  repeat match goal with
         | |- context [sanitizeId (lit ?s)] =>
             change (sanitizeId (lit s)) with (lit s)
         | H : context [sanitizeId (lit ?s)] |- _ =>
             change (sanitizeId (lit s)) with (lit s) in H
         end.

Lemma lit_not_nil_CodeRepository : lit "CodeRepository" ≠ [].
Proof. discriminate. Qed.

(** The source phase completes when a repository to import finds its id
    free in the scope. *)
Lemma repositorySource_completes env scope name v A props w :
  Inv scope name v w → Kids scope name A [] w →
  (provided (repositoryName props) = true →
   Pipeline.onDefaultBranch env w (name :: scope) (defaultBranchName props) = false →
   lit "CodeRepository" ∉ A) →
  ∃ rs A',
    result (Pipeline.repositorySource env scope (name :: scope) props w) = inr rs
    ∧ Kids scope name A'
        (if provided (repositoryName props)
            && Pipeline.onDefaultBranch env w (name :: scope) (defaultBranchName props)
         then [lit "CodeRepository"] else [])
        (final (Pipeline.repositorySource env scope (name :: scope) props w)).
Proof.
  intros HI HK Himport. unfold Pipeline.repositorySource.
  destruct (provided (repositoryName props)); cbn [andb].
  2:{ eexists _, A. by split. }
  rewrite result_bind, final_bind, isDefaultBranchAt_run. cbn [result final].
  destruct (Pipeline.onDefaultBranch env w (name :: scope) (defaultBranchName props)).
  - destruct (newConstruct_child scope name A []
                (CRepository (default [] (repositoryName props)))
                (lit "CodeRepository") w HK lit_not_nil_CodeRepository)
      as [Hr HK']; [apply not_elem_of_nil|].
    repeat first [rewrite result_bind | rewrite final_bind | rewrite Hr];
      cbn [result final emit ret].
    repeat first [rewrite result_bind | rewrite final_bind]; cbn [result final emit ret].
    eexists _, A. by split.
  - destruct HI as [Hin _]. destruct HK as [HA HB]. rewrite HA in Hin.
    destruct (newConstruct_sibling scope name A []
                (CImportedRepository (default [] (repositoryName props)))
                (lit "CodeRepository") w (conj HA HB) Hin lit_not_nil_CodeRepository)
      as [Hr HK']; [by apply Himport|].
    repeat first [rewrite result_bind | rewrite final_bind | rewrite Hr];
      cbn [result final ret].
    eexists _, _. by split.
Qed.

(** One more child of the pipeline construct, in the course of a phase. *)
Ltac add_child HK :=
  repeat first [rewrite result_bind | rewrite final_bind];
  lazymatch goal with
  | |- context [result (newConstruct ?c (?name :: ?scope) ?id ?w)] =>
      let Hr := fresh "Hr" in
      let HK' := fresh "HK" in
      destruct (newConstruct_child scope name _ _ c id w HK) as [Hr HK'];
      [ .. |
        rewrite ?Hr; cbn [result final ret];
        revert HK'; generalize (final (newConstruct c (name :: scope) id w));
        clear Hr; intros ? HK' ]
  end.

Ltac fresh_id :=
  literal_ids; cbn [app];
  rewrite ?not_elem_of_cons;
  repeat split; try apply not_elem_of_nil; try discriminate; try congruence.

Ltac next_child :=
  repeat first [rewrite result_bind | rewrite final_bind
               | progress cbn [ret result final]];
  lazymatch goal with
  | HK : Kids _ _ _ _ ?w |- context [result (newConstruct _ _ _ ?w)] =>
      add_child HK; [try discriminate; try done | fresh_id | clear HK ]
  end.

(** ** The theorems at work on example configurations *)

Lemma accepts_fresh w scope id :
  id ≠ [] → children_of w scope = [] → accepts w scope id.
Proof.
  intros H1 H2. split; [by rewrite sanitizeId_nil_iff|].
  rewrite H2. apply not_elem_of_nil.
Qed.

Lemma stack_accepts id : id ≠ [] → accepts stackWorld stack id.
Proof. intros H. by apply accepts_fresh. Qed.

(** The two invalid configurations of the unit tests. *)
Lemma construction_validation_witness :
  result (Pipeline.new noSignal stack (lit "InvalidConfig") invalidConfig stackWorld)
  = inl (Thrown (lit "Either repositoryName or codestarConnectionArn must be provided"))
  ∧ result (Pipeline.new noSignal stack (lit "InvalidConfig") invalidCodeStarConfig
              stackWorld)
    = inl (Thrown
             (lit "repositoryOwnerAndName is required when using codestarConnectionArn")).
Proof.
  assert (H : accepts stackWorld stack (lit "InvalidConfig")) by by apply stack_accepts.
  split.
  - apply (proj1 (construction_validation noSignal stack (lit "InvalidConfig")
                    invalidConfig stackWorld _)).
    split; [exact H|]. by left.
  - apply (proj1 (construction_validation noSignal stack (lit "InvalidConfig")
                    invalidCodeStarConfig stackWorld _)).
    split; [exact H|]. by right.
Defined.

(** C1, as worded, fails: construction raises an error for a configuration
    that passes both checks, in a scope that accepts the id. With the same
    prefix listed twice, on the default branch, the construct tree refuses
    the second project, and the error is not a validation error. *)
Lemma valid_configuration_counterexample :
  let props := demo None (Some [lit "feature"; lit "feature"]) in
  let o := Pipeline.new noSignal stack (lit "Demo") props stackWorld in
  validConfig props = true
  ∧ accepts stackWorld stack (lit "Demo")
  ∧ result o
    = inl (DuplicateConstruct [lit "FeatureBranchPipelines"; lit "Demo"; lit "Stack"]
             (lit "FeaturePipeline-feature")).
Proof.
  cbv zeta. split; [reflexivity|]. split; [by apply stack_accepts|]. by vm_compute.
Qed.

(** [repositoryName = "Demo"], no branch signal, [branchNamePrefixes = [""]]:
    one feature trigger, on the default branch. *)
Lemma feature_triggers_witness :
  length (featureTriggers
            (calls (Pipeline.new noSignal stack (lit "Demo")
                      (demo None (Some PDKPipeline.ALL_BRANCHES)) stackWorld))) = 1%nat
  ∧ (∃ prefixes,
       branchNamePrefixes (demo None (Some PDKPipeline.ALL_BRANCHES)) = Some prefixes
       ∧ prefixes ≠ [])
  ∧ Pipeline.onDefaultBranch noSignal stackWorld stack
      (defaultBranchName (demo None (Some PDKPipeline.ALL_BRANCHES))) = true.
Proof.
  split; [by vm_compute|].
  apply (feature_triggers_only_on_default noSignal stack (lit "Demo")
           (demo None (Some PDKPipeline.ALL_BRANCHES)) stackWorld).
  intros H. by vm_compute in H.
Defined.

(** Two prefixes, two projects, in the order given. *)
Lemma fan_out_witness :
  accepts stackWorld stack (lit "FeatureBranchPipelines")
  ∧ NoDup (map projectName [lit "feature"; lit "bugfix"])
  ∧ featureTriggers
      (calls (FeatureBranches.new stack (lit "FeatureBranchPipelines")
                (featurePrefixes [lit "feature"; lit "bugfix"]) stackWorld))
    = [projectOf (featurePrefixes [lit "feature"; lit "bugfix"])
         (lit "FeatureBranchPipelines" :: stack) (lit "feature");
       projectOf (featurePrefixes [lit "feature"; lit "bugfix"])
         (lit "FeatureBranchPipelines" :: stack) (lit "bugfix")].
Proof.
  assert (Ha : accepts stackWorld stack (lit "FeatureBranchPipelines"))
    by by apply stack_accepts.
  assert (Hn : NoDup (map projectName [lit "feature"; lit "bugfix"])).
  { apply (bool_decide_unpack _). by vm_compute. }
  split; [exact Ha|]. split; [exact Hn|].
  apply (fan_out_one_project_per_prefix stack (lit "FeatureBranchPipelines")
           (featurePrefixes [lit "feature"; lit "bugfix"]) stackWorld Ha).
  exact Hn.
Defined.

(** [repositoryName = "Demo"]: created on the default branch, imported on
    the branch ["feature/x"]. *)
Lemma hosted_repository_witness :
  repositoryCalls
    (calls (Pipeline.new noSignal stack (lit "Demo") (demo None None) stackWorld))
  = [New (CRepository (lit "Demo")) [lit "CodeRepository"; lit "Demo"; lit "Stack"];
     ApplyRemovalPolicy [lit "CodeRepository"; lit "Demo"; lit "Stack"] RETAIN]
  ∧ repositoryCalls
      (calls (Pipeline.new onFeatureX stack (lit "Demo") (demo None None) stackWorld))
    = [New (CImportedRepository (lit "Demo")) [lit "CodeRepository"; lit "Stack"]].
Proof.
  assert (H1 : ∃ obj, result (Pipeline.new noSignal stack (lit "Demo") (demo None None)
                                stackWorld) = inr obj)
    by (eexists; vm_compute; reflexivity).
  assert (H2 : ∃ obj, result (Pipeline.new onFeatureX stack (lit "Demo") (demo None None)
                                stackWorld) = inr obj)
    by (eexists; vm_compute; reflexivity).
  destruct H1 as [obj1 H1], H2 as [obj2 H2].
  split.
  - rewrite (hosted_repository noSignal stack (lit "Demo") (demo None None) stackWorld
               obj1 (lit "Demo") eq_refl ltac:(discriminate) H1).
    vm_compute. reflexivity.
  - rewrite (hosted_repository onFeatureX stack (lit "Demo") (demo None None) stackWorld
               obj2 (lit "Demo") eq_refl ltac:(discriminate) H2).
    vm_compute. reflexivity.
Defined.

(** [repositoryName = "Demo"], [BRANCH = "feature/x"],
    [defaultBranchName = "mainline"], [branchNamePrefixes = ["feature"]]:
    the stack is tagged, and no feature trigger is created. *)
Lemma stack_tags_witness :
  ∃ branch,
    BRANCH onFeatureX = Some branch
    ∧ tagsAdded
        (calls (Pipeline.new onFeatureX stack (lit "Demo")
                  (demo (Some (lit "mainline")) (Some [lit "feature"])) stackWorld))
      = [AddTag (OnStackOf [lit "Demo"; lit "Stack"]) (lit "FeatureBranch") branch;
         AddTag (OnStackOf [lit "Demo"; lit "Stack"]) (lit "RepoName") (lit "Demo")].
Proof.
  assert (H : ∃ obj, result (Pipeline.new onFeatureX stack (lit "Demo")
                               (demo (Some (lit "mainline")) (Some [lit "feature"]))
                               stackWorld) = inr obj)
    by (eexists; vm_compute; reflexivity).
  destruct H as [obj H].
  exact (stack_tags_off_default onFeatureX stack (lit "Demo")
           (demo (Some (lit "mainline")) (Some [lit "feature"])) stackWorld obj
           [lit "feature"] eq_refl eq_refl H).
Defined.

(** ** More on the static helpers *)

Lemma normalizeBranchName_map (branchName : jsstring) :
  PDKPipeline.normalizeBranchName branchName
  = map (fun c => if PDKPipeline.branch_class c then c else N_of_ascii "-") branchName.
Proof.
  unfold PDKPipeline.normalizeBranchName. change (lit "-") with [N_of_ascii "-"].
  rewrite replace_class_single. apply map_ext. intros c.
  by destruct (PDKPipeline.branch_class c).
Qed.

Lemma normalizeBranchName_class (branchName : jsstring) :
  Forall (fun c => PDKPipeline.branch_class c = true)
    (PDKPipeline.normalizeBranchName branchName).
Proof.
  rewrite normalizeBranchName_map. apply Forall_map, Forall_forall. intros c _.
  simpl. by destruct (PDKPipeline.branch_class c) eqn:E.
Qed.

Lemma normalizeBranchName_fixed (branchName : jsstring) :
  Forall (fun c => PDKPipeline.branch_class c = true) branchName →
  PDKPipeline.normalizeBranchName branchName = branchName.
Proof.
  rewrite normalizeBranchName_map.
  induction 1 as [|c s Hc _ IH]; [done|]. cbn [map]. rewrite Hc. by f_equal.
Qed.

(** X1. Normalization yields only code units of the class [[A-Za-z0-9-]],
    and normalizing a normalized name changes nothing. *)
Theorem normalizeBranchName_idempotent (branchName : jsstring) :
  Forall (fun c => PDKPipeline.branch_class c = true)
    (PDKPipeline.normalizeBranchName branchName)
  ∧ PDKPipeline.normalizeBranchName (PDKPipeline.normalizeBranchName branchName)
    = PDKPipeline.normalizeBranchName branchName.
Proof.
  split; [apply normalizeBranchName_class|].
  apply normalizeBranchName_fixed, normalizeBranchName_class.
Qed.

(** X2. The names normalization leaves unchanged are exactly those made of
    code units of the class [[A-Za-z0-9-]]. *)
Theorem normalizeBranchName_fixed_iff (branchName : jsstring) :
  PDKPipeline.normalizeBranchName branchName = branchName
  ↔ Forall (fun c => PDKPipeline.branch_class c = true) branchName.
Proof.
  split; [|apply normalizeBranchName_fixed].
  intros H. rewrite <- H. apply normalizeBranchName_class.
Qed.

(** X3. The branch prefix is empty exactly on the default branch. On any
    other branch it is the normalized branch signal followed by ["-"]: one
    code unit longer than the signal, and made of code units of the class
    [[A-Za-z0-9-]] only. *)
Theorem getBranchPrefix_cases (env : Env) (props : IsDefaultBranchProps) :
  (PDKPipeline.getBranchPrefix env props = []
   ↔ PDKPipeline.isDefaultBranch env props = true)
  ∧ (PDKPipeline.isDefaultBranch env props = false →
     ∃ branch,
       BRANCH env = Some branch ∧ branch ≠ []
       ∧ PDKPipeline.getBranchPrefix env props
         = PDKPipeline.normalizeBranchName branch ++ lit "-"
       ∧ length (PDKPipeline.getBranchPrefix env props) = S (length branch)
       ∧ Forall (fun c => PDKPipeline.branch_class c = true)
           (PDKPipeline.getBranchPrefix env props)).
Proof.
  unfold PDKPipeline.getBranchPrefix. split.
  - destruct (PDKPipeline.isDefaultBranch env props); [done|].
    split; [|done]. intros H. by apply app_eq_nil in H as [_ H].
  - intros H. rewrite H.
    destruct (not_default_branch_set _ _ H) as (b & Hb & Hne & ->).
    exists b. split; [done|]. split; [done|]. split; [done|]. split.
    + rewrite length_app, normalizeBranchName_map, length_map. simpl. lia.
    + apply Forall_app. split; [apply normalizeBranchName_class|].
      by repeat constructor.
Qed.

Lemma getBranchPrefix_witness :
  PDKPipeline.isDefaultBranch onFeatureX
    {| idb_node := None; idb_defaultBranchName := None |} = false
  ∧ PDKPipeline.getBranchPrefix onFeatureX
      {| idb_node := None; idb_defaultBranchName := None |} = lit "feature-x-".
Proof.
  split; [reflexivity|].
  destruct (proj2 (getBranchPrefix_cases onFeatureX
                     {| idb_node := None; idb_defaultBranchName := None |})
              eq_refl) as (b & Hb & _ & -> & _).
  injection Hb as <-. reflexivity.
Defined.

(** X4. When a default name is configured, or no node is passed, or the
    node's context holds nothing for [defaultBranchName], the resolver is a
    function of the branch signal and the configured name alone: the signal
    is compared with the configured name, or with ["mainline"] without
    one. *)
Theorem isDefaultBranch_without_context (env : Env) (props : IsDefaultBranchProps) :
  provided (idb_defaultBranchName props) = true
  ∨ truthy (contextDefault props) = false →
  PDKPipeline.isDefaultBranch env props
  = isDefaultBranch_by_pair (BRANCH env) (idb_defaultBranchName props).
Proof.
  unfold PDKPipeline.isDefaultBranch, isDefaultBranch_by_pair, contextDefault.
  unfold PDKPipeline.defaultBranchName.
  destruct env as [[[|c b]|]]; simpl; try done.
  destruct props as [node [[|d ds]|]]; simpl.
  - intros [?|H]; [done|]. unfold js_or, strict_eq. simpl. rewrite H. simpl.
    apply bool_decide_ext. split; intros E; inversion E; reflexivity.
  - intros _. unfold js_or, strict_eq. simpl.
    apply bool_decide_ext. split; intros E; inversion E; reflexivity.
  - intros [?|H]; [done|]. unfold js_or, strict_eq. simpl. rewrite H. simpl.
    apply bool_decide_ext. split; intros E; inversion E; reflexivity.
Qed.

Lemma isDefaultBranch_without_context_witness :
  PDKPipeline.isDefaultBranch onFeatureX
    {| idb_node := Some (node_of stackWorld stack);
       idb_defaultBranchName := Some (lit "feature/x") |} = true.
Proof.
  rewrite (isDefaultBranch_without_context onFeatureX
             {| idb_node := Some (node_of stackWorld stack);
                idb_defaultBranchName := Some (lit "feature/x") |}
             (or_introl eq_refl)).
  reflexivity.
Defined.

(** X5. A context value for [defaultBranchName] that is truthy but not a
    string, such as [true], is taken as the default name when none is
    configured; no branch signal equals it, so every set branch is then a
    feature branch. *)
Theorem isDefaultBranch_non_string_context (env : Env) (node : Node) :
  tryGetContext node (lit "defaultBranchName") = VBool true →
  provided (BRANCH env) = true →
  PDKPipeline.isDefaultBranch env
    {| idb_node := Some node; idb_defaultBranchName := None |} = false.
Proof.
  intros Hc Hb. unfold PDKPipeline.isDefaultBranch. rewrite Hb. simpl.
  rewrite Hc. unfold js_or, strict_eq. simpl.
  apply bool_decide_eq_false. by destruct (BRANCH env).
Qed.

Lemma isDefaultBranch_non_string_context_witness :
  PDKPipeline.isDefaultBranch {| BRANCH := Some (lit "mainline") |}
    {| idb_node := Some {| tryGetContext := fun _ => VBool true |};
       idb_defaultBranchName := None |} = false.
Proof.
  exact (isDefaultBranch_non_string_context {| BRANCH := Some (lit "mainline") |}
           {| tryGetContext := fun _ => VBool true |} eq_refl eq_refl).
Defined.

(** X6. The branch the pipeline's source follows is the branch signal when
    one is set, else the configured default name, else ["mainline"]; it is
    never empty, and the context of the node plays no part in it. *)
Theorem branch_of_cases (env : Env) (props : PDKPipelineProps) :
  Pipeline.branch_of env props
  = (if provided (BRANCH env) then PDKPipeline.env_branch env
     else if provided (defaultBranchName props)
          then default [] (defaultBranchName props)
          else lit "mainline")
  ∧ Pipeline.branch_of env props ≠ [].
Proof.
  unfold Pipeline.branch_of, PDKPipeline.env_branch.
  destruct (BRANCH env) as [[|c b]|], (defaultBranchName props) as [[|d ds]|];
    by simpl.
Qed.

(** ** The run of a construction that completes *)

Lemma newConstruct_calls c scope id w p :
  result (newConstruct c scope id w) = inr p →
  p = sanitizeId id :: scope
  ∧ calls (newConstruct c scope id w) = [New c (sanitizeId id :: scope)].
Proof.
  intros H. destruct (newConstruct_inr _ _ _ _ _ H) as [Hacc ->].
  by rewrite (newConstruct_accepted _ _ _ _ Hacc).
Qed.

Lemma repositorySource_run env scope this props w rs :
  result (Pipeline.repositorySource env scope this props w) = inr rs →
  let isDefault := Pipeline.onDefaultBranch env w this (defaultBranchName props) in
  rs = (repositoryOf isDefault scope this props,
        sourceOf env props (repositoryOf isDefault scope this props))
  ∧ calls (Pipeline.repositorySource env scope this props w)
    = repositoryTrace isDefault scope this props.
Proof.
  unfold Pipeline.repositorySource, repositoryOf, repositoryTrace, sourceOf.
  destruct (provided (repositoryName props)).
  - intros H.
    apply bind_inr in H as (isDefault & E & H & ->).
    rewrite isDefaultBranchAt_result in E. injection E as <-.
    rewrite isDefaultBranchAt_final in H.
    rewrite isDefaultBranchAt_calls, isDefaultBranchAt_final, app_nil_l.
    cbv zeta.
    destruct (Pipeline.onDefaultBranch env w this (defaultBranchName props)).
    + apply bind_inr in H as (r & E & H & ->).
      apply bind_inr in E as (r' & E & E' & ->).
      apply newConstruct_calls in E as [-> ->].
      apply bind_inr in E' as ([] & _ & E' & ->).
      rewrite result_ret in E'. injection E' as <-.
      rewrite result_ret in H. injection H as <-.
      rewrite calls_emit, !calls_ret, !app_nil_r. by literal_ids.
    + apply bind_inr in H as (r & E & H & ->).
      apply newConstruct_calls in E as [-> ->].
      rewrite result_ret in H. injection H as <-.
      rewrite calls_ret, app_nil_r. by literal_ids.
  - intros H. rewrite result_ret in H. injection H as <-. by rewrite calls_ret.
Qed.

Lemma artifacts_run this id props source w pl :
  result (Pipeline.artifacts this id props source w) = inr pl →
  pl = sanitizeId id :: this
  ∧ calls (Pipeline.artifacts this id props source w)
    = artifactsTrace this id props source.
Proof.
  unfold Pipeline.artifacts, artifactsTrace, synthCommandsOf. intros H.
  apply bind_inr in H as (logs & E & H & ->).
  apply newConstruct_calls in E as [-> ->].
  revert H. generalize (final (newConstruct (CBucket S3_MANAGED None None) this
                                 (lit "AccessLogsBucket") w)).
  intros w1 H.
  apply bind_inr in H as (key & E & H & ->).
  assert (key = (if Pipeline.truthy_flag (crossAccountKeys props)
                 then Some (lit "ArtifactKey" :: this) else None)
          ∧ calls ((if Pipeline.truthy_flag (crossAccountKeys props) then
                      let* k := newConstruct CKey this (lit "ArtifactKey") in ret (Some k)
                    else ret None) w1)
            = (if Pipeline.truthy_flag (crossAccountKeys props)
               then [New CKey (lit "ArtifactKey" :: this)] else [])) as [-> ->].
  { destruct (Pipeline.truthy_flag (crossAccountKeys props)).
    - apply bind_inr in E as (k & E & E' & ->).
      apply newConstruct_calls in E as [-> ->].
      rewrite result_ret in E'. injection E' as <-.
      rewrite calls_ret. by literal_ids.
    - rewrite result_ret in E. injection E as <-. by rewrite calls_ret. }
  clear E. revert H.
  match goal with |- context [final ?x] => generalize (final x) end.
  intros w2 H.
  apply bind_inr in H as (bucket & E & H & ->).
  apply newConstruct_calls in E as [-> ->].
  revert H.
  match goal with |- context [final ?x] => generalize (final x) end.
  intros w3 H.
  apply bind_inr in H as (pipeline & E & H & ->).
  apply newConstruct_calls in E as [-> ->].
  apply newConstruct_calls in H as [-> ->].
  by literal_ids.
Qed.

Lemma forEach_run props fb prefixes w :
  result (forEach prefixes (FeatureBranches.forPrefix props fb) w) = inr tt →
  calls (forEach prefixes (FeatureBranches.forPrefix props fb) w)
  = flat_map (projectCalls props fb) prefixes.
Proof.
  revert w. induction prefixes as [|x l IH]; intros w; [done|].
  cbn [forEach flat_map]. rewrite result_bind, calls_bind.
  destruct (decide (projectName x ∈ children_of w fb)) as [Hin|Hx].
  - by rewrite forPrefix_taken.
  - rewrite forPrefix_fresh by done. cbn [result final calls].
    intros H. by rewrite (IH _ H).
Qed.

Lemma FeatureBranches_run scope id props w fb :
  result (FeatureBranches.new scope id props w) = inr fb →
  fb = sanitizeId id :: scope
  ∧ calls (FeatureBranches.new scope id props w)
    = New CFeatureBranches fb
      :: flat_map (projectCalls props fb) (fb_branchNamePrefixes props).
Proof.
  unfold FeatureBranches.new. intros H.
  apply bind_inr in H as (this & E & H & ->).
  apply newConstruct_calls in E as [-> ->].
  apply bind_inr in H as ([] & E & H & ->).
  rewrite result_ret in H. injection H as <-.
  rewrite (forEach_run _ _ _ _ E), calls_ret, app_nil_r. done.
Qed.

Lemma featureBranches_run env this props repository w :
  result (Pipeline.featureBranches env this props repository w) = inr tt →
  calls (Pipeline.featureBranches env this props repository w)
  = featureTrace env (Pipeline.onDefaultBranch env w this (defaultBranchName props))
      this props repository.
Proof.
  unfold Pipeline.featureBranches, featureTrace.
  destruct (branchNamePrefixes props) as [prefixes|]; [|done].
  intros H.
  apply bind_inr in H as (isDefault & E & H & ->).
  rewrite isDefaultBranchAt_result in E. injection E as <-.
  rewrite isDefaultBranchAt_final in H.
  rewrite isDefaultBranchAt_calls, isDefaultBranchAt_final, app_nil_l.
  destruct (Pipeline.onDefaultBranch env w this (defaultBranchName props)).
  - apply bind_inr in H as (fb & E & _ & ->).
    apply FeatureBranches_run in E as [-> ->].
    rewrite calls_ret, app_nil_r. by literal_ids.
  - rewrite calls_bind, calls_emit, result_emit, final_emit.
    destruct (provided (repositoryName props)); by rewrite ?calls_emit, ?calls_ret.
Qed.

Lemma repositoryOutput_run this repository w :
  result (Pipeline.repositoryOutput this repository w) = inr tt →
  calls (Pipeline.repositoryOutput this repository w) = outputTrace this repository.
Proof.
  unfold Pipeline.repositoryOutput, outputTrace.
  destruct repository as [r|]; [|done]. intros H.
  apply bind_inr in H as (out & E & _ & ->).
  apply newConstruct_calls in E as [-> ->].
  rewrite calls_ret, app_nil_r. by literal_ids.
Qed.

(** A construction that completes: the instance it returns and its calls. *)
Lemma new_run env scope id props w obj :
  result (Pipeline.new env scope id props w) = inr obj →
  obj = constructedObject env w scope id props
  ∧ calls (Pipeline.new env scope id props w) = constructionTrace env w scope id props.
Proof.
  unfold Pipeline.new. intros H.
  apply bind_inr in H as (this & E & H & ->).
  apply newConstruct_inr in E as [Hacc ->].
  rewrite (newConstruct_accepted _ _ _ _ Hacc) in *. cbn [final calls] in *.
  pose proof (Inv_register w scope (sanitizeId id)) as HI.
  revert HI H. generalize (register w scope (sanitizeId id)). intros w1 HI H.
  apply bind_inr in H as ([] & _ & H & ->). rewrite calls_validate.
  apply (preserves_validate _ props) in HI.
  revert HI H. generalize (final (Pipeline.validate props w1)). intros w2 HI H.
  apply bind_inr in H as ([] & _ & H & ->). rewrite calls_setContext.
  apply (preserves_setContext _ _ _ (sanitizeId id :: scope) _ (VBool true)
           s3_key_neq) in HI.
  revert HI H. match goal with |- context [final ?x] => generalize (final x) end.
  intros w3 HI3 H.
  apply bind_inr in H as (rs & Ers & H & ->).
  pose proof (preserves_repositorySource env _ _ _ props _ HI3) as HI.
  destruct (repositorySource_run _ _ _ _ _ _ Ers) as [-> ->].
  rewrite (onDefaultBranch_Inv env w w3 scope (sanitizeId id) _ HI3) in *.
  clear Ers. revert HI H.
  match goal with |- context [final ?x] => generalize (final x) end.
  intros w4 HI H. cbn [fst snd] in *.
  apply bind_inr in H as (pl & Epl & H & ->).
  apply (preserves_artifacts _ _ _ id props
           (sourceOf env props
              (repositoryOf (Pipeline.onDefaultBranch env w scope (defaultBranchName props))
                 scope (sanitizeId id :: scope) props))) in HI.
  destruct (artifacts_run _ _ _ _ _ _ Epl) as [-> ->].
  clear Epl. revert HI H.
  match goal with |- context [final ?x] => generalize (final x) end.
  intros w5 HI5 H.
  apply bind_inr in H as ([] & Efb & H & ->).
  rewrite (featureBranches_run _ _ _ _ _ Efb).
  rewrite (onDefaultBranch_Inv env w w5 scope (sanitizeId id) _ HI5).
  clear Efb. revert H.
  match goal with |- context [final ?x] => generalize (final x) end.
  intros w6 H.
  apply bind_inr in H as ([] & Eout & H & ->).
  rewrite (repositoryOutput_run _ _ _ Eout).
  rewrite result_ret in H. injection H as <-.
  rewrite calls_ret, !app_nil_l, app_nil_r.
  split; reflexivity.
Qed.

Lemma new_valid env scope id props w obj :
  result (Pipeline.new env scope id props w) = inr obj → validConfig props = true.
Proof.
  unfold Pipeline.new. intros H.
  apply bind_inr in H as (this & _ & H & _).
  apply bind_inr in H as (u & E & _ & _).
  by apply validate_inr in E.
Qed.

Lemma filter_projectCalls π props fb prefixes :
  (∀ prefix, List.filter π (projectCalls props fb prefix) = []) →
  List.filter π (flat_map (projectCalls props fb) prefixes) = [].
Proof.
  intros H. induction prefixes as [|x l IH]; [done|].
  cbn [flat_map]. by rewrite List.filter_app, H, IH.
Qed.

Lemma filter_artifactsTrace_code_pipeline this id props source :
  List.filter is_code_pipeline (artifactsTrace this id props source)
  = [New (CCodePipeline (lit "CodePipeline" :: this) source (synthCommandsOf props))
       (sanitizeId id :: this)].
Proof.
  unfold artifactsTrace. by destruct (Pipeline.truthy_flag (crossAccountKeys props)).
Qed.

Lemma filter_artifactsTrace_output this id props source :
  List.filter is_output (artifactsTrace this id props source) = [].
Proof.
  unfold artifactsTrace. by destruct (Pipeline.truthy_flag (crossAccountKeys props)).
Qed.

Lemma filter_artifactsTrace_repository this id props source :
  List.filter is_repository_call (artifactsTrace this id props source) = [].
Proof.
  unfold artifactsTrace. by destruct (Pipeline.truthy_flag (crossAccountKeys props)).
Qed.

Lemma filter_artifactsTrace π this id props source :
  (∀ e k l p, π (New (CBucket e k l) p) = false) →
  (∀ p, π (New CKey p) = false) →
  (∀ x b p, π (New (CPipeline x b) p) = false) →
  (∀ a b c p, π (New (CCodePipeline a b c) p) = false) →
  List.filter π (artifactsTrace this id props source) = [].
Proof.
  intros H1 H2 H3 H4. unfold artifactsTrace.
  destruct (Pipeline.truthy_flag (crossAccountKeys props)); cbn [app].
  all: by rewrite ?(filter_cons_false π _ _ (H1 _ _ _ _)),
         ?(filter_cons_false π _ _ (H2 _)), ?(filter_cons_false π _ _ (H1 _ _ _ _)),
         ?(filter_cons_false π _ _ (H3 _ _ _)), ?(filter_cons_false π _ _ (H4 _ _ _ _)).
Qed.

Lemma filter_repositoryTrace π isDefault scope this props :
  (∀ n p, π (New (CRepository n) p) = false) →
  (∀ n p, π (New (CImportedRepository n) p) = false) →
  (∀ p x, π (ApplyRemovalPolicy p x) = false) →
  List.filter π (repositoryTrace isDefault scope this props) = [].
Proof.
  intros H1 H2 H3. unfold repositoryTrace.
  destruct (provided (repositoryName props)); [|done].
  destruct isDefault.
  - by rewrite (filter_cons_false π _ _ (H1 _ _)), (filter_cons_false π _ _ (H3 _ _)).
  - by rewrite (filter_cons_false π _ _ (H2 _ _)).
Qed.

Lemma filter_outputTrace π this repository :
  (∀ r p, π (New (CCfnOutput r) p) = false) →
  List.filter π (outputTrace this repository) = [].
Proof.
  intros H. destruct repository as [r|]; [|done].
  unfold outputTrace. by rewrite (filter_cons_false π _ _ (H _ _)).
Qed.

Lemma filter_featureTrace π env isDefault this props repository :
  (∀ p, π (New CFeatureBranches p) = false) →
  (∀ c p, π (New (CProject (codeBuildDefaults props) (dockerEnabledForSynth props) c) p)
          = false) →
  (∀ p s, π (AddToRolePolicy p s) = false) →
  (∀ t k v, π (AddTag t k v) = false) →
  List.filter π (featureTrace env isDefault this props repository) = [].
Proof.
  intros H1 H2 H3 H4. unfold featureTrace.
  destruct (branchNamePrefixes props) as [prefixes|]; [|done].
  destruct isDefault.
  - rewrite filter_cons_false by apply H1.
    apply filter_projectCalls. intros prefix. unfold projectCalls, projectOf.
    rewrite filter_cons_false by apply H2. by rewrite filter_cons_false by apply H3.
  - rewrite filter_cons_false by apply H4.
    destruct (provided (repositoryName props)); [|done].
    by rewrite filter_cons_false by apply H4.
Qed.

(** X7. A construction that completes returns an instance whose fields are
    the construct, the [CodePipeline] created under it with the same id,
    the repository it bound, and the three properties [addStage] reads; and
    the calls it has made are those of its phases, in program order: the
    construct itself, the repository, the buckets with the key, the
    pipeline and the [CodePipeline], the feature-branch pipelines or the
    tags of the stack, and the output of the clone URL. *)
Theorem construction_trace env scope id props w obj :
  result (Pipeline.new env scope id props w) = inr obj →
  obj = constructedObject env w scope id props
  ∧ calls (Pipeline.new env scope id props w) = constructionTrace env w scope id props.
Proof. apply new_run. Qed.

(** X9. With a connection in place of a repository name, a construction
    that completes binds no repository: it makes no call on a repository
    and no output, and the [CodePipeline] follows the connection, with the
    owner/name string and the connection identifier of the configuration,
    both not empty. *)
Theorem connection_source env scope id props w obj :
  provided (repositoryName props) = false →
  result (Pipeline.new env scope id props w) = inr obj →
  let this := sanitizeId id :: scope in
  let o := Pipeline.new env scope id props w in
  ∃ owner arn,
    repositoryOwnerAndName props = Some owner ∧ owner ≠ []
    ∧ codestarConnectionArn props = Some arn ∧ arn ≠ []
    ∧ codeRepository obj = None
    ∧ repositoryCalls (calls o) = []
    ∧ List.filter is_output (calls o) = []
    ∧ List.filter is_code_pipeline (calls o)
      = [New (CCodePipeline (lit "CodePipeline" :: this)
                (SourceConnection owner (Pipeline.branch_of env props) arn)
                (synthCommandsOf props))
           (sanitizeId id :: this)].
Proof.
  intros Hn H this o.
  pose proof (new_valid _ _ _ _ _ _ H) as Hv. unfold validConfig in Hv.
  rewrite Hn in Hv. cbn [orb] in Hv.
  destruct (provided (codestarConnectionArn props)) eqn:Harn; [|done].
  cbn [negb orb andb] in Hv.
  apply provided_inv in Harn as (arn & Harn & ?).
  apply provided_inv in Hv as (owner & Howner & ?).
  exists owner, arn. do 4 (split; [done|]).
  destruct (new_run _ _ _ _ _ _ H) as [-> Hc]. subst o. rewrite Hc.
  unfold constructedObject, constructionTrace, repositoryOf, repositoryTrace.
  rewrite Hn. cbn [codeRepository app outputTrace sourceOf].
  rewrite Harn, Howner. cbn [default].
  split; [done|]. unfold repositoryCalls.
  rewrite !filter_cons_false by done. rewrite !List.filter_app.
  rewrite filter_artifactsTrace_repository, filter_artifactsTrace_output,
    filter_artifactsTrace_code_pipeline.
  rewrite !filter_featureTrace by done.
  by rewrite !app_nil_r.
Qed.

(** X10. With a repository name, the repository a completed construction
    creates or imports is one and the same in the instance it returns, in
    the source of the [CodePipeline], which follows it on the branch of
    the construction, and in the single output of the clone URL. *)
Theorem repository_bound env scope id props w obj name :
  repositoryName props = Some name → name ≠ [] →
  result (Pipeline.new env scope id props w) = inr obj →
  let this := sanitizeId id :: scope in
  let o := Pipeline.new env scope id props w in
  let r :=
    lit "CodeRepository"
    :: (if Pipeline.onDefaultBranch env w scope (defaultBranchName props)
        then this else scope) in
  codeRepository obj = Some r
  ∧ List.filter is_code_pipeline (calls o)
    = [New (CCodePipeline (lit "CodePipeline" :: this)
              (SourceCodeCommit r (Pipeline.branch_of env props))
              (synthCommandsOf props))
         (sanitizeId id :: this)]
  ∧ List.filter is_output (calls o)
    = [New (CCfnOutput r) (lit "CodeRepositoryGRCUrl" :: this)].
Proof.
  intros Hn Hne H this o r.
  assert (Hp : provided (repositoryName props) = true).
  { rewrite Hn. by apply provided_Some. }
  destruct (new_run _ _ _ _ _ _ H) as [-> Hc]. subst o. rewrite Hc.
  unfold constructedObject, constructionTrace, repositoryOf, repositoryTrace.
  rewrite Hp. cbn [codeRepository outputTrace sourceOf].
  split; [done|].
  rewrite !filter_cons_false by done. rewrite !List.filter_app.
  rewrite filter_artifactsTrace_output, filter_artifactsTrace_code_pipeline.
  rewrite !filter_featureTrace by done.
  destruct (Pipeline.onDefaultBranch env w scope (defaultBranchName props)); done.
Qed.

(** X11. Where the artifacts are stored: the bucket of the access logs is
    always encrypted with keys of the store; the bucket of the artifacts
    writes its access logs to it, and is encrypted with a key of its own,
    created for it, exactly when [crossAccountKeys] is true. No other
    bucket and no other key is made. *)
Theorem artifact_encryption env scope id props w obj :
  result (Pipeline.new env scope id props w) = inr obj →
  let this := sanitizeId id :: scope in
  let logs := lit "AccessLogsBucket" :: this in
  let key := lit "ArtifactKey" :: this in
  List.filter is_store (calls (Pipeline.new env scope id props w))
  = match crossAccountKeys props with
    | Some true =>
        [New (CBucket S3_MANAGED None None) logs;
         New CKey key;
         New (CBucket KMS (Some key) (Some logs)) (lit "ArtifactsBucket" :: this)]
    | _ =>
        [New (CBucket S3_MANAGED None None) logs;
         New (CBucket S3_MANAGED None (Some logs)) (lit "ArtifactsBucket" :: this)]
    end.
Proof.
  intros H. cbv zeta.
  destruct (new_run _ _ _ _ _ _ H) as [_ ->].
  unfold constructionTrace.
  rewrite filter_cons_false by done. rewrite !List.filter_app.
  rewrite filter_featureTrace by done.
  assert (List.filter is_store
            (repositoryTrace
               (Pipeline.onDefaultBranch env w scope (defaultBranchName props))
               scope (sanitizeId id :: scope) props) = []) as ->.
  { unfold repositoryTrace.
    by destruct (provided (repositoryName props)),
         (Pipeline.onDefaultBranch env w scope (defaultBranchName props)). }
  assert (∀ r, List.filter is_store (outputTrace (sanitizeId id :: scope) r) = [])
    as ->.
  { by intros [r|]. }
  rewrite app_nil_l, !app_nil_r. unfold artifactsTrace.
  by destruct (crossAccountKeys props) as [[]|].
Qed.

(** X12. The feature-branch pipelines of a completed construction: on the
    default branch, with prefixes given, the construct
    [FeatureBranchPipelines] is created, even for an empty list, and under
    it one project per prefix, in the order of the list, each with the
    code-build defaults, the docker flag and the cdk command of the
    pipeline's configuration; in every other case neither is created. *)
Theorem pipeline_fan_out env scope id props w obj :
  result (Pipeline.new env scope id props w) = inr obj →
  let this := sanitizeId id :: scope in
  let fb := lit "FeatureBranchPipelines" :: this in
  let o := Pipeline.new env scope id props w in
  let fanOut :=
    match branchNamePrefixes props with
    | Some prefixes =>
        if Pipeline.onDefaultBranch env w scope (defaultBranchName props)
        then Some prefixes else None
    | None => None
    end in
  List.filter is_feature_branches (calls o)
  = match fanOut with
    | Some _ => [New CFeatureBranches fb]
    | None => []
    end
  ∧ featureTriggers (calls o)
    = match fanOut with
      | Some prefixes =>
          map (projectOf
                 (Pipeline.featureBranchesProps props prefixes (codeRepository obj)) fb)
            prefixes
      | None => []
      end.
Proof.
  intros H. cbv zeta.
  destruct (new_run _ _ _ _ _ _ H) as [-> ->].
  unfold constructionTrace, featureTriggers. cbn [constructedObject codeRepository].
  rewrite !filter_cons_false by done. rewrite !List.filter_app.
  rewrite !filter_repositoryTrace, !filter_artifactsTrace, !filter_outputTrace by done.
  rewrite !app_nil_l, !app_nil_r.
  unfold featureTrace.
  destruct (branchNamePrefixes props) as [prefixes|]; [|done].
  destruct (Pipeline.onDefaultBranch env w scope (defaultBranchName props)).
  - split.
    + cbn [List.filter is_feature_branches]. f_equal.
      by apply filter_projectCalls.
    + rewrite filter_cons_false by done. apply featureTriggers_projectCalls.
  - split.
    + rewrite filter_cons_false by done.
      by destruct (provided (repositoryName props)).
    + rewrite filter_cons_false by done.
      by destruct (provided (repositoryName props)).
Qed.

(** X13. The tags [addStage] puts on a stage are, key for key and value
    for value, the tags the construction put on the stack, whenever the
    branch resolver answers for the stage as it did for the pipeline. *)
Theorem stage_tags_match_stack_tags env scope id props w obj stage w' :
  result (Pipeline.new env scope id props w) = inr obj →
  Pipeline.onDefaultBranch env w' stage (defaultBranchName props)
  = Pipeline.onDefaultBranch env w scope (defaultBranchName props) →
  omap tagOf (calls (Pipeline.tagStage env obj stage w'))
  = omap tagOf (calls (Pipeline.new env scope id props w)).
Proof.
  intros H Hsame.
  destruct (new_run _ _ _ _ _ _ H) as [-> ->].
  rewrite tagStage_run. cbn [calls constructedObject this_branchNamePrefixes
                              this_defaultBranchName this_repositoryName].
  rewrite Hsame. unfold constructionTrace.
  cbn [omap list_omap tagOf]. rewrite !omap_app.
  assert (∀ d r, omap tagOf (repositoryTrace d scope (sanitizeId id :: scope) props) = []
                 ∧ omap tagOf (outputTrace (sanitizeId id :: scope) r) = []
                 ∧ omap tagOf (artifactsTrace (sanitizeId id :: scope) id props
                                 (sourceOf env props r)) = []) as Hnil.
  { intros d r. split; [|split].
    - unfold repositoryTrace. by destruct (provided (repositoryName props)), d.
    - by destruct r.
    - unfold artifactsTrace.
      by destruct (Pipeline.truthy_flag (crossAccountKeys props)). }
  destruct (Hnil (Pipeline.onDefaultBranch env w scope (defaultBranchName props))
              (repositoryOf
                 (Pipeline.onDefaultBranch env w scope (defaultBranchName props))
                 scope (sanitizeId id :: scope) props)) as (-> & -> & ->).
  rewrite app_nil_l, app_nil_r. unfold featureTrace.
  destruct (branchNamePrefixes props) as [prefixes|]; [|done].
  cbn [bool_decide andb].
  destruct (Pipeline.onDefaultBranch env w scope (defaultBranchName props)) eqn:Hd.
  - cbn [negb andb omap list_omap tagOf].
    rewrite bool_decide_eq_true_2 by done. cbn [andb].
    induction prefixes as [|x l IH]; [done|]. exact IH.
  - rewrite bool_decide_eq_true_2 by done. cbn [negb andb].
    unfold Pipeline.onDefaultBranch in Hd.
    destruct (not_default_branch_set _ _ Hd) as (b & Hb & Hne & ->).
    rewrite (branch_of_signal _ _ _ Hb Hne).
    by destruct (repositoryName props) as [[|c name]|].
Qed.

(** ** Constructions that fail *)

Lemma bind_inl {A B} (m : M A) (k : A → M B) w e :
  result (bind m k w) = inl e →
  result (m w) = inl e
  ∨ ∃ a, result (m w) = inr a ∧ result (k a (final (m w))) = inl e.
Proof.
  rewrite result_bind. destruct (result (m w)) as [e'|a] eqn:E; [intros [= ->]; by left|].
  intros H. right. by exists a.
Qed.

Lemma fails_only_ret P {A} (a : A) : fails_only P (ret a).
Proof. intros w e H. by rewrite result_ret in H. Qed.

Lemma fails_only_get P : fails_only P get.
Proof. intros w e H. unfold get in H. by cbn [result] in H. Qed.

Lemma fails_only_put P w : fails_only P (put w).
Proof. intros w' e H. unfold put in H. by cbn [result] in H. Qed.

Lemma fails_only_emit P e : fails_only P (emit e).
Proof. intros w e' H. by rewrite result_emit in H. Qed.

Lemma fails_only_throw (P : Error → Prop) {A} e : P e → fails_only P (@throw A e).
Proof. intros H w e' [= <-]. exact H. Qed.

Lemma fails_only_bind P {A B} (m : M A) (k : A → M B) :
  fails_only P m → (∀ a, fails_only P (k a)) → fails_only P (bind m k).
Proof.
  intros Hm Hk w e H. apply bind_inl in H as [H|(a & _ & H)].
  - by apply (Hm w).
  - by apply (Hk a (final (m w))).
Qed.

Lemma fails_only_forEach P {A} (l : list A) f :
  (∀ x, fails_only P (f x)) → fails_only P (forEach l f).
Proof.
  intros Hf. induction l as [|x l IH]; [apply fails_only_ret|].
  apply fails_only_bind; [apply Hf|]. intros _. exact IH.
Qed.

Lemma fails_only_newConstruct c scope id :
  fails_only tree_error (newConstruct c scope id).
Proof.
  intros w e. rewrite newConstruct_unfold.
  repeat case_bool_decide; cbn [result]; intros [= <-].
  - by left.
  - right. by eexists _, _.
Qed.

Lemma fails_only_isDefaultBranchAt P env c name :
  fails_only P (Pipeline.isDefaultBranchAt env c name).
Proof. intros w e H. by rewrite isDefaultBranchAt_result in H. Qed.

Ltac step_fails_only :=
  first
    [ apply fails_only_ret | apply fails_only_get | apply fails_only_put
    | apply fails_only_emit | apply fails_only_isDefaultBranchAt
    | apply fails_only_newConstruct
    | apply fails_only_forEach; intros ?
    | apply fails_only_bind; [|intros ?]
    | case_match ].

Lemma fails_only_FeatureBranches scope id props :
  fails_only tree_error (FeatureBranches.new scope id props).
Proof.
  unfold FeatureBranches.new, FeatureBranches.forPrefix. repeat step_fails_only.
Qed.

Lemma fails_only_repositorySource env scope this props :
  fails_only tree_error (Pipeline.repositorySource env scope this props).
Proof. unfold Pipeline.repositorySource. repeat step_fails_only. Qed.

Lemma fails_only_artifacts this id props source :
  fails_only tree_error (Pipeline.artifacts this id props source).
Proof. unfold Pipeline.artifacts. repeat step_fails_only. Qed.

Lemma fails_only_featureBranches env this props repo :
  fails_only tree_error (Pipeline.featureBranches env this props repo).
Proof.
  unfold Pipeline.featureBranches.
  repeat first [apply fails_only_FeatureBranches | step_fails_only].
Qed.

Lemma fails_only_repositoryOutput this repo :
  fails_only tree_error (Pipeline.repositoryOutput this repo).
Proof. unfold Pipeline.repositoryOutput. repeat step_fails_only. Qed.

Lemma validate_inl props w e :
  result (Pipeline.validate props w) = inl e →
  e = Thrown Pipeline.msg_no_repository ∨ e = Thrown Pipeline.msg_no_owner.
Proof.
  unfold Pipeline.validate. repeat case_match; intros [= <-]; auto.
Qed.

Lemma final_validate props w : final (Pipeline.validate props w) = w.
Proof. unfold Pipeline.validate. by repeat case_match. Qed.

(** The node of a construct just registered has no children: its context
    can be set. *)
Lemma setContext_registered w scope name key value :
  result (setContext (name :: scope) key value (register w scope name)) = inr tt.
Proof.
  rewrite setContext_unfold, children_of_register, decide_True by done.
  by rewrite bool_decide_eq_false_2 by (by intros ?).
Qed.

(** No construction ends with the error of a context set too late. *)
Lemma context_flag_never_refused_aux env scope id props w :
  refuses_context (result (Pipeline.new env scope id props w)) = false.
Proof.
  destruct (result (Pipeline.new env scope id props w)) as [e|obj] eqn:H; [|done].
  assert (Htree : ∀ e, tree_error e → @refuses_context PDKPipelineObj (inl e) = false).
  { by intros e' [->|(s & n & ->)]. }
  revert H. unfold Pipeline.new. intros H.
  apply bind_inl in H as [H|(this & Ethis & H)].
  { apply Htree. by apply fails_only_newConstruct in H. }
  apply newConstruct_inr in Ethis as [Hacc ->].
  rewrite (f_equal final (newConstruct_accepted CPDKPipeline _ _ _ Hacc)) in H.
  cbn [final] in H.
  apply bind_inl in H as [H|([] & _ & H)].
  { by apply validate_inl in H as [->| ->]. }
  rewrite final_validate in H.
  apply bind_inl in H as [H|([] & _ & H)].
  { by rewrite setContext_registered in H. }
  revert H. match goal with |- context [final ?x] => generalize (final x) end.
  intros w3 H. apply Htree. revert w3 e H.
  repeat first
    [ apply fails_only_repositorySource | apply fails_only_artifacts
    | apply fails_only_featureBranches | apply fails_only_repositoryOutput
    | apply fails_only_ret
    | apply fails_only_bind; [|intros ?] ].
Qed.

(** X15. When the scope refuses the id, empty or already taken, the
    construction fails with the error of the construct tree, whatever the
    configuration, valid or not: it makes no call and leaves the tree as it
    was. *)
Theorem construct_id_refused env scope id props w :
  ¬ accepts w scope id →
  let o := Pipeline.new env scope id props w in
  result o = inl (if bool_decide (id = []) then EmptyConstructId
                  else DuplicateConstruct scope (sanitizeId id))
  ∧ calls o = [] ∧ final o = w.
Proof. intros Hacc. cbv zeta. by apply new_refused. Qed.

Lemma construct_id_refused_witness :
  result (Pipeline.new noSignal stack [] invalidConfig stackWorld) = inl EmptyConstructId
  ∧ calls (Pipeline.new noSignal stack [] invalidConfig stackWorld) = []
  ∧ final (Pipeline.new noSignal stack [] invalidConfig stackWorld) = stackWorld.
Proof.
  exact (construct_id_refused noSignal stack [] invalidConfig stackWorld
           (fun H => proj1 H eq_refl)).
Defined.

(** The constructor up to the buckets: an error of theirs is the error of
    the construction. *)
Lemma new_artifacts_error env scope id props w :
  validConfig props = true →
  accepts w scope id →
  sanitizeId id ≠ lit "CodeRepository" →
  (provided (repositoryName props) = true →
   Pipeline.onDefaultBranch env w scope (defaultBranchName props) = false →
   lit "CodeRepository" ∉ children_of w scope) →
  ∃ w3 source A B,
    (B = [] ∨ B = [lit "CodeRepository"])
    ∧ Kids scope (sanitizeId id) A B w3
    ∧ ∀ e, result (Pipeline.artifacts (sanitizeId id :: scope) id props source w3) = inl e →
           result (Pipeline.new env scope id props w) = inl e.
Proof.
  intros Hvalid Hacc Hname Himport.
  unfold Pipeline.new.
  pose proof (f_equal result (newConstruct_accepted CPDKPipeline _ _ _ Hacc)) as Hr.
  pose proof (f_equal final (newConstruct_accepted CPDKPipeline _ _ _ Hacc)) as Hf.
  cbn [result final] in Hr, Hf.
  bind_step Hr. rewrite Hf. clear Hr Hf.
  pose proof (Inv_register w scope (sanitizeId id)) as HI.
  pose proof (Kids_register scope (sanitizeId id) w) as HK.
  revert HI HK. generalize (register w scope (sanitizeId id)). intros w1 HI HK.
  pose proof (f_equal result (validate_valid props w1 Hvalid)) as Hr.
  pose proof (f_equal final (validate_valid props w1 Hvalid)) as Hf.
  cbn [result final] in Hr, Hf.
  bind_step Hr. rewrite Hf. clear Hr Hf.
  destruct (setContext_Kids scope (sanitizeId id) _
              (lit "@aws-cdk/aws-s3:serverAccessLogsUseBucketPolicy") (VBool true)
              w1 HK) as [Hr HK'].
  apply (preserves_setContext _ _ _ (sanitizeId id :: scope) _ (VBool true)
           s3_key_neq) in HI.
  bind_step Hr. clear Hr HK.
  revert HI HK'.
  generalize (final (setContext (sanitizeId id :: scope)
                (lit "@aws-cdk/aws-s3:serverAccessLogsUseBucketPolicy") (VBool true) w1)).
  intros w2 HI HK.
  pose proof (onDefaultBranch_Inv env w w2 scope (sanitizeId id)
                (defaultBranchName props) HI) as Hd2.
  destruct (repositorySource_completes env scope (sanitizeId id) _ _ props w2 HI HK)
    as (rs & A' & Hr & HK').
  { rewrite Hd2. intros Hp Hoff. rewrite not_elem_of_app. split; [by apply Himport|].
    rewrite not_elem_of_cons. split; [congruence|apply not_elem_of_nil]. }
  bind_step Hr. clear Hr.
  set (B0 := if _ && _ then _ else _) in HK'.
  assert (HB0 : B0 = [] ∨ B0 = [lit "CodeRepository"])
    by (subst B0; destruct (_ && _); auto).
  clearbody B0.
  revert HK'.
  generalize (final (Pipeline.repositorySource env scope (sanitizeId id :: scope) props w2)).
  intros w3 HK'.
  exists w3, rs.2, A', B0. split; [done|]. split; [done|].
  intros e He. by rewrite result_bind, He.
Qed.

Lemma artifacts_clash scope name A B id props source w :
  sanitizeId id = name → id ≠ [] →
  name ∈ [lit "AccessLogsBucket"; lit "ArtifactsBucket"; lit "CodePipeline"] →
  B = [] ∨ B = [lit "CodeRepository"] →
  Kids scope name A B w →
  result (Pipeline.artifacts (name :: scope) id props source w)
  = inl (DuplicateConstruct (name :: scope) name).
Proof.
  intros Hname Hid Hin HB HK. unfold Pipeline.artifacts.
  destruct HB as [-> | ->], (Pipeline.truthy_flag (crossAccountKeys props)).
  1,3: do 4 next_child.
  3,4: do 3 next_child.
  all: rewrite newConstruct_unfold, Hname.
  all: rewrite bool_decide_eq_false_2
         by (intros ->; revert Hin; rewrite !elem_of_cons, elem_of_nil;
             intros [?|[?|[?|[]]]]; discriminate).
  all: rewrite bool_decide_eq_true_2; [done|].
  all: match goal with HK : Kids _ _ _ _ _ |- _ => destruct HK as [_ ->] end.
  all: literal_ids; cbn [app].
  all: revert Hin; rewrite !elem_of_cons, elem_of_nil; tauto.
Qed.

(** X16. A pipeline whose id is one of the ids the constructor gives to
    its own children, [AccessLogsBucket], [ArtifactsBucket] or
    [CodePipeline], cannot be constructed: the [CodePipeline] the
    constructor creates under the pipeline with the id of the pipeline
    finds that name taken, and the construct tree refuses it. *)
Theorem child_id_clash env scope id props w :
  validConfig props = true →
  accepts w scope id →
  (provided (repositoryName props) = true →
   Pipeline.onDefaultBranch env w scope (defaultBranchName props) = false →
   lit "CodeRepository" ∉ children_of w scope) →
  sanitizeId id ∈ [lit "AccessLogsBucket"; lit "ArtifactsBucket"; lit "CodePipeline"] →
  result (Pipeline.new env scope id props w)
  = inl (DuplicateConstruct (sanitizeId id :: scope) (sanitizeId id)).
Proof.
  intros Hvalid Hacc Himport Hin.
  assert (Hid : id ≠ []) by (destruct Hacc as [H _]; by rewrite sanitizeId_nil_iff in H).
  destruct (new_artifacts_error env scope id props w Hvalid Hacc) as
    (w3 & source & A & B & HB & HK & Herr); [|done|].
  { intros E. rewrite E in Hin. revert Hin.
    rewrite !elem_of_cons, elem_of_nil. intros [?|[?|[?|[]]]]; discriminate. }
  apply Herr. by apply (artifacts_clash scope _ A B).
Qed.

Lemma child_id_clash_witness :
  result (Pipeline.new noSignal stack (lit "CodePipeline") (demo None None) stackWorld)
  = inl (DuplicateConstruct [lit "CodePipeline"; lit "Stack"] (lit "CodePipeline")).
Proof.
  apply (child_id_clash noSignal stack (lit "CodePipeline") (demo None None) stackWorld).
  - reflexivity.
  - by apply stack_accepts.
  - intros _ H. by vm_compute in H.
  - apply (bool_decide_unpack _). by vm_compute.
Defined.

(** ** The context flag *)

Lemma Keeps_newConstruct_under scope name key v c scope' id :
  (name :: scope) `suffix_of` scope' →
  preserves (Keeps scope name key v) (newConstruct c scope' id).
Proof.
  intros Hs w [H1 H2]. apply suffix_length in Hs. simpl in Hs.
  rewrite newConstruct_unfold. repeat case_bool_decide; simpl; try done.
  split.
  - rewrite children_of_register.
    rewrite decide_False by (intros E; apply (f_equal length) in E; simpl in E; lia).
    rewrite decide_False by (intros E; apply (f_equal length) in E; simpl in E; lia).
    done.
  - rewrite context_register, lookup_context_insert_ne; [done|].
    apply not_suffix_longer. simpl. lia.
Qed.

Lemma Keeps_newConstruct_sibling scope name key v c id :
  preserves (Keeps scope name key v) (newConstruct c scope id).
Proof.
  intros w [H1 H2].
  rewrite newConstruct_unfold. repeat case_bool_decide; simpl; try done.
  assert (sanitizeId id ≠ name) by congruence.
  split.
  - rewrite children_of_register.
    rewrite decide_False by apply cons_neq_self. rewrite decide_True by done.
    apply elem_of_app. by left.
  - rewrite context_register, lookup_context_insert_ne; [done|].
    intros Hs. apply suffix_cons_inv in Hs as [E|Hs]; [congruence|].
    apply suffix_length in Hs. simpl in Hs. lia.
Qed.

Lemma preserves_forEach I {X} (l : list X) f :
  (∀ x, preserves I (f x)) → preserves I (forEach l f).
Proof.
  intros Hf. induction l as [|x l IH]; [apply preserves_ret|].
  apply preserves_bind; [apply Hf|]. intros _. exact IH.
Qed.

Ltac step_keeps :=
  first
    [ apply preserves_ret | apply preserves_throw | apply preserves_get
    | apply preserves_emit | apply preserves_isDefaultBranchAt
    | apply Keeps_newConstruct_sibling
    | apply Keeps_newConstruct_under; reflexivity
    | apply Keeps_newConstruct_under; apply suffix_cons_r; reflexivity
    | apply preserves_forEach; intros ?
    | apply preserves_bind; [|intros ?]
    | case_match ].

Lemma Keeps_forPrefix scope name key v x props prefix :
  preserves (Keeps scope name key v)
    (FeatureBranches.forPrefix props (x :: name :: scope) prefix).
Proof. unfold FeatureBranches.forPrefix. repeat step_keeps. Qed.

Lemma Keeps_FeatureBranches scope name key v id props :
  preserves (Keeps scope name key v) (FeatureBranches.new (name :: scope) id props).
Proof.
  intros w Hw. unfold FeatureBranches.new. rewrite final_bind.
  pose proof (Keeps_newConstruct_under scope name key v CFeatureBranches
                (name :: scope) id (reflexivity _) w Hw) as Hw'.
  destruct (result (newConstruct CFeatureBranches (name :: scope) id w)) as [e|fb] eqn:E;
    [done|].
  apply newConstruct_inr in E as [_ ->].
  revert Hw'. generalize (final (newConstruct CFeatureBranches (name :: scope) id w)).
  intros w' Hw'.
  apply (preserves_bind (Keeps scope name key v)); [|intros ?; apply preserves_ret|done].
  apply preserves_forEach. intros prefix. apply Keeps_forPrefix.
Qed.

Lemma Keeps_repositorySource env scope name key v props :
  preserves (Keeps scope name key v)
    (Pipeline.repositorySource env scope (name :: scope) props).
Proof. unfold Pipeline.repositorySource. repeat step_keeps. Qed.

Lemma Keeps_artifacts scope name key v id props source :
  preserves (Keeps scope name key v) (Pipeline.artifacts (name :: scope) id props source).
Proof. unfold Pipeline.artifacts. repeat step_keeps. Qed.

Lemma Keeps_featureBranches env scope name key v props repo :
  preserves (Keeps scope name key v)
    (Pipeline.featureBranches env (name :: scope) props repo).
Proof.
  unfold Pipeline.featureBranches.
  repeat first [apply Keeps_FeatureBranches | step_keeps].
Qed.

Lemma Keeps_repositoryOutput scope name key v repo :
  preserves (Keeps scope name key v) (Pipeline.repositoryOutput (name :: scope) repo).
Proof. unfold Pipeline.repositoryOutput. repeat step_keeps. Qed.

(** The context of a node after a key is set on it. *)
Lemma Keeps_setContext w scope name key value :
  value ≠ VUndef →
  Keeps scope name key value
    (final (setContext (name :: scope) key value (register w scope name))).
Proof.
  intros Hv. rewrite setContext_unfold, children_of_register, decide_True by done.
  rewrite bool_decide_eq_false_2 by (by intros ?). cbn [final]. split.
  - unfold children_of. cbn [children].
    change (default [] (children (register w scope name) !! scope))
      with (children_of (register w scope name) scope).
    rewrite children_of_register.
    rewrite decide_False by apply cons_neq_self. rewrite decide_True by done.
    apply elem_of_app. right. by apply list_elem_of_singleton.
  - cbn [context lookup_context]. rewrite lookup_insert_eq. cbn [mbind option_bind].
    rewrite lookup_insert_eq. cbn [default].
    by rewrite bool_decide_eq_true_2.
Qed.

(** X14. The context flag of the constructor is always set, and without
    error. [setContext] is called on the node of the pipeline right after
    it is created and the configuration is checked, before the node has any
    child: no construction ends with the error of the construct tree for a
    context set after children were added; and once the scope has accepted
    the id and the configuration has passed the checks, the node of the
    pipeline answers [true] for the flag in the tree the construction
    leaves, whether it completes or not. *)
Theorem context_flag_set env scope id props w :
  let o := Pipeline.new env scope id props w in
  refuses_context (result o) = false
  ∧ (accepts w scope id → validConfig props = true →
     lookup_context (context (final o)) (sanitizeId id :: scope)
       (lit "@aws-cdk/aws-s3:serverAccessLogsUseBucketPolicy")
     = VBool true).
Proof.
  cbv zeta. split; [apply context_flag_never_refused_aux|].
  intros Hacc Hvalid. unfold Pipeline.new.
  pose proof (f_equal result (newConstruct_accepted CPDKPipeline _ _ _ Hacc)) as Hr.
  pose proof (f_equal final (newConstruct_accepted CPDKPipeline _ _ _ Hacc)) as Hf.
  cbn [result final] in Hr, Hf.
  bind_step Hr. rewrite Hf. clear Hr Hf.
  pose proof (f_equal result
                (validate_valid props (register w scope (sanitizeId id)) Hvalid)) as Hr.
  pose proof (f_equal final
                (validate_valid props (register w scope (sanitizeId id)) Hvalid)) as Hf.
  cbn [result final] in Hr, Hf.
  bind_step Hr. rewrite Hf. clear Hr Hf.
  bind_step (setContext_registered w scope (sanitizeId id)
               (lit "@aws-cdk/aws-s3:serverAccessLogsUseBucketPolicy") (VBool true)).
  pose proof (Keeps_setContext w scope (sanitizeId id)
                (lit "@aws-cdk/aws-s3:serverAccessLogsUseBucketPolicy") (VBool true)
                ltac:(discriminate)) as HK.
  revert HK.
  generalize (final (setContext (sanitizeId id :: scope)
                (lit "@aws-cdk/aws-s3:serverAccessLogsUseBucketPolicy") (VBool true)
                (register w scope (sanitizeId id)))).
  intros w2 HK.
  match goal with
  | |- lookup_context (context (final (?m w2))) _ _ = _ =>
      assert (Hp : preserves
                     (Keeps scope (sanitizeId id)
                        (lit "@aws-cdk/aws-s3:serverAccessLogsUseBucketPolicy")
                        (VBool true)) m)
  end.
  { repeat first
      [ apply Keeps_repositorySource | apply Keeps_artifacts
      | apply Keeps_featureBranches | apply Keeps_repositoryOutput
      | apply preserves_ret
      | apply preserves_bind; [|intros ?] ]. }
  exact (proj2 (Hp w2 HK)).
Qed.

Lemma context_flag_set_witness :
  lookup_context
    (context (final (Pipeline.new noSignal stack (lit "Demo") (demo None None)
                       stackWorld)))
    [lit "Demo"; lit "Stack"] (lit "@aws-cdk/aws-s3:serverAccessLogsUseBucketPolicy")
  = VBool true.
Proof.
  apply (proj2 (context_flag_set noSignal stack (lit "Demo") (demo None None)
                  stackWorld)).
  - by apply stack_accepts.
  - reflexivity.
Defined.

(** ** More on the feature-branch pipelines *)

Lemma replace_class_app C rep s t :
  replace_class C rep (s ++ t) = replace_class C rep s ++ replace_class C rep t.
Proof.
  induction s as [|c s IH]; [done|]. cbn [app replace_class]. rewrite IH.
  destruct (C c); [by rewrite app_assoc|done].
Qed.

Lemma sanitizeId_slash_free s :
  Forall (fun c => is_slash c = false) s → sanitizeId s = s.
Proof.
  unfold sanitizeId. induction 1 as [|c s Hc _ IH]; [done|].
  cbn [replace_class]. by rewrite Hc, IH.
Qed.

Lemma projectName_sanitizeId prefix :
  projectName prefix = lit "FeaturePipeline-" ++ sanitizeId prefix.
Proof.
  unfold projectName, FeatureBranches.projectId, sanitizeId.
  by rewrite replace_class_app.
Qed.

Lemma projectName_slash_free prefixes :
  Forall (Forall (fun c => is_slash c = false)) prefixes →
  map projectName prefixes = map (app (lit "FeaturePipeline-")) prefixes.
Proof.
  induction 1 as [|x l Hx _ IH]; [done|]. cbn [map].
  by rewrite IH, projectName_sanitizeId, sanitizeId_slash_free.
Qed.

Lemma children_of_registered w scope name :
  children_of (register w scope name) (name :: scope) = [].
Proof. rewrite children_of_register. by rewrite decide_True. Qed.

(** X17. Prefixes that are pairwise distinct and hold no ["/"] always fan
    out: the feature-branch construct, once its scope has accepted it,
    completes with one project per prefix, in the order of the list, the
    project of a prefix being named ["FeaturePipeline-"] followed by the
    prefix. *)
Theorem distinct_prefixes_without_slash scope id props w :
  accepts w scope id →
  NoDup (fb_branchNamePrefixes props) →
  Forall (Forall (fun c => is_slash c = false)) (fb_branchNamePrefixes props) →
  let fb := sanitizeId id :: scope in
  let o := FeatureBranches.new scope id props w in
  result o = inr fb
  ∧ featureTriggers (calls o)
    = map (fun prefix =>
             New (CProject (fb_codeBuildDefaults props) (fb_dockerEnabledForSynth props)
                    (FeatureBranches.buildSpec props))
               ((lit "FeaturePipeline-" ++ prefix) :: fb))
        (fb_branchNamePrefixes props).
Proof.
  intros Hacc Hnd Hfree. cbv zeta. unfold FeatureBranches.new.
  rewrite result_bind, calls_bind, newConstruct_accepted by done.
  cbn [result final calls].
  rewrite result_bind, calls_bind.
  destruct (forEach_distinct props (sanitizeId id :: scope) (fb_branchNamePrefixes props)
              (register w scope (sanitizeId id))) as [Hr Hc].
  { rewrite children_of_registered, app_nil_l, (projectName_slash_free _ Hfree).
    apply NoDup_fmap_2; [|done]. intros x y. apply app_inv_head. }
  rewrite Hr, Hc. cbn [ret result calls app]. rewrite app_nil_r.
  split; [done|].
  change (featureTriggers (New CFeatureBranches ?p :: ?l)) with (featureTriggers l).
  rewrite featureTriggers_projectCalls. unfold projectOf.
  apply Forall_fmap_ext. eapply Forall_impl; [exact Hfree|].
  intros x Hx. cbv beta. by rewrite projectName_sanitizeId, sanitizeId_slash_free.
Qed.

Lemma distinct_prefixes_without_slash_witness :
  result (FeatureBranches.new stack (lit "FeatureBranchPipelines")
            (featurePrefixes [lit "feature"; lit "bugfix"]) stackWorld)
  = inr [lit "FeatureBranchPipelines"; lit "Stack"].
Proof.
  apply (distinct_prefixes_without_slash stack (lit "FeatureBranchPipelines")
           (featurePrefixes [lit "feature"; lit "bugfix"]) stackWorld).
  - by apply stack_accepts.
  - apply (bool_decide_unpack _). by vm_compute.
  - apply (bool_decide_unpack _). by vm_compute.
Defined.

Lemma forEach_clash props fb ready prefix rest w :
  NoDup (children_of w fb ++ map projectName ready) →
  projectName prefix ∈ children_of w fb ++ map projectName ready →
  let o := forEach (ready ++ prefix :: rest) (FeatureBranches.forPrefix props fb) w in
  result o = inl (DuplicateConstruct fb (projectName prefix))
  ∧ calls o = flat_map (projectCalls props fb) ready
  ∧ children_of (final o) fb = children_of w fb ++ map projectName ready.
Proof.
  cbv zeta. revert w. induction ready as [|x l IH]; intros w Hnd Hin.
  - cbn [app map flat_map forEach] in *. rewrite app_nil_r in *.
    rewrite result_bind, calls_bind, final_bind, forPrefix_taken by done.
    cbn [result calls final]. by rewrite app_nil_r.
  - cbn [app map flat_map forEach] in *.
    assert (Hx : projectName x ∉ children_of w fb).
    { apply NoDup_app in Hnd as (_ & Hd & _). intros Hx.
      apply (Hd _ Hx). by left. }
    rewrite result_bind, calls_bind, final_bind, forPrefix_fresh by done.
    cbn [result calls final].
    destruct (IH (register w fb (projectName x))) as (-> & -> & ->).
    + by rewrite children_of_register_scope, <- app_assoc.
    + by rewrite children_of_register_scope, <- app_assoc.
    + by rewrite children_of_register_scope, <- app_assoc.
Qed.

(** X18. A fan-out that fails is not undone. When the project of a prefix
    takes the name of the project of an earlier prefix, as for two
    prefixes that differ only in ["/"] against ["--"], the construction
    stops there with the error of the construct tree: the projects of the
    prefixes before it have been created, with their role policies, and
    stay in the tree; the prefixes after it are not looked at. *)
Theorem fan_out_stops_at_first_clash scope id props w ready prefix rest :
  accepts w scope id →
  fb_branchNamePrefixes props = ready ++ prefix :: rest →
  NoDup (map projectName ready) →
  projectName prefix ∈ map projectName ready →
  let fb := sanitizeId id :: scope in
  let o := FeatureBranches.new scope id props w in
  result o = inl (DuplicateConstruct fb (projectName prefix))
  ∧ calls o = New CFeatureBranches fb :: flat_map (projectCalls props fb) ready
  ∧ children_of (final o) fb = map projectName ready.
Proof.
  intros Hacc Hl Hnd Hin. cbv zeta. unfold FeatureBranches.new.
  rewrite result_bind, calls_bind, final_bind, newConstruct_accepted by done.
  cbn [result final calls].
  rewrite result_bind, calls_bind, final_bind, Hl.
  destruct (forEach_clash props (sanitizeId id :: scope) ready prefix rest
              (register w scope (sanitizeId id))) as (Hr & Hc & Hf).
  { by rewrite children_of_registered. }
  { by rewrite children_of_registered. }
  rewrite Hr, Hc, Hf, children_of_registered, app_nil_r. done.
Qed.

Lemma fan_out_stops_at_first_clash_witness :
  result (FeatureBranches.new stack (lit "FeatureBranchPipelines")
            (featurePrefixes [lit "fix/a"; lit "fix--a"; lit "feature"]) stackWorld)
  = inl (DuplicateConstruct [lit "FeatureBranchPipelines"; lit "Stack"]
           (lit "FeaturePipeline-fix--a"))
  ∧ length (featureTriggers
              (calls (FeatureBranches.new stack (lit "FeatureBranchPipelines")
                        (featurePrefixes [lit "fix/a"; lit "fix--a"; lit "feature"])
                        stackWorld))) = 1%nat.
Proof.
  destruct (fan_out_stops_at_first_clash stack (lit "FeatureBranchPipelines")
              (featurePrefixes [lit "fix/a"; lit "fix--a"; lit "feature"]) stackWorld
              [lit "fix/a"] (lit "fix--a") [lit "feature"]) as (Hr & Hc & _).
  - by apply stack_accepts.
  - reflexivity.
  - apply (bool_decide_unpack _). by vm_compute.
  - apply (bool_decide_unpack _). by vm_compute.
  - split; [exact Hr|]. rewrite Hc. reflexivity.
Defined.

(** ** What a construction that completes required *)

(** The constructor up to the source: the pipeline construct is the last
    child of its scope and has no child of its own. *)
Lemma new_source_state env scope id props w obj :
  result (Pipeline.new env scope id props w) = inr obj →
  ∃ w3 rs,
    Kids scope (sanitizeId id) (children_of w scope ++ [sanitizeId id]) [] w3
    ∧ Inv scope (sanitizeId id)
        (lookup_context (context w) scope (lit "defaultBranchName")) w3
    ∧ result (Pipeline.repositorySource env scope (sanitizeId id :: scope) props w3)
      = inr rs.
Proof.
  unfold Pipeline.new. intros H.
  apply bind_inr in H as (this & E & H & _).
  apply newConstruct_inr in E as [Hacc ->].
  rewrite (f_equal final (newConstruct_accepted CPDKPipeline _ _ _ Hacc)) in H.
  cbn [final] in H.
  pose proof (Inv_register w scope (sanitizeId id)) as HI.
  pose proof (Kids_register scope (sanitizeId id) w) as HK.
  revert HI HK H. generalize (register w scope (sanitizeId id)). intros w1 HI HK H.
  apply bind_inr in H as ([] & _ & H & _).
  rewrite final_validate in H.
  apply bind_inr in H as ([] & _ & H & _).
  destruct (setContext_Kids scope (sanitizeId id) _
              (lit "@aws-cdk/aws-s3:serverAccessLogsUseBucketPolicy") (VBool true)
              w1 HK) as [_ HK'].
  apply (preserves_setContext _ _ _ (sanitizeId id :: scope) _ (VBool true)
           s3_key_neq) in HI.
  revert HI HK' H.
  generalize (final (setContext (sanitizeId id :: scope)
                (lit "@aws-cdk/aws-s3:serverAccessLogsUseBucketPolicy") (VBool true) w1)).
  intros w3 HI HK' H.
  apply bind_inr in H as (rs & Ers & _).
  by exists w3, rs.
Qed.

(** A repository is imported under a name that is free in the scope. *)
Lemma import_requires env scope name A props w rs :
  Kids scope name A [] w →
  provided (repositoryName props) = true →
  Pipeline.onDefaultBranch env w (name :: scope) (defaultBranchName props) = false →
  result (Pipeline.repositorySource env scope (name :: scope) props w) = inr rs →
  lit "CodeRepository" ∉ A.
Proof.
  intros [HA _] Hp Hoff. unfold Pipeline.repositorySource. rewrite Hp. intros H.
  apply bind_inr in H as (isDefault & E & H & _).
  rewrite isDefaultBranchAt_result in E. injection E as <-.
  rewrite isDefaultBranchAt_final, Hoff in H.
  apply bind_inr in H as (r & E & _).
  apply newConstruct_inr in E as [[_ Hout] _].
  by rewrite <- HA.
Qed.

(** The projects of a fan-out that completes have distinct names. *)
Lemma FeatureBranches_requires scope id props w fb :
  result (FeatureBranches.new scope id props w) = inr fb →
  NoDup (map projectName (fb_branchNamePrefixes props)).
Proof.
  unfold FeatureBranches.new. intros E.
  apply bind_inr in E as (p & E1 & E2 & _).
  apply newConstruct_inr in E1 as [Hacc ->].
  rewrite (f_equal final (newConstruct_accepted CFeatureBranches _ _ _ Hacc)) in E2.
  cbn [final] in E2.
  apply bind_inr in E2 as ([] & E3 & _).
  destruct (decide (NoDup (map projectName (fb_branchNamePrefixes props))))
    as [|Hdup]; [done|].
  exfalso.
  destruct (forEach_repeated props (sanitizeId id :: scope) (fb_branchNamePrefixes props)
              (register w scope (sanitizeId id))) as (name & _ & Hr).
  - rewrite children_of_registered. apply NoDup_nil_2.
  - by rewrite children_of_registered.
  - by rewrite Hr in E3.
Qed.

Lemma fan_out_requires env this props repo w prefixes :
  branchNamePrefixes props = Some prefixes →
  Pipeline.onDefaultBranch env w this (defaultBranchName props) = true →
  result (Pipeline.featureBranches env this props repo w) = inr tt →
  NoDup (map projectName prefixes).
Proof.
  intros Hp Hd. unfold Pipeline.featureBranches. rewrite Hp. intros H.
  apply bind_inr in H as (isDefault & E & H & _).
  rewrite isDefaultBranchAt_result in E. injection E as <-.
  rewrite isDefaultBranchAt_final, Hd in H.
  apply bind_inr in H as (fb & E & _).
  exact (FeatureBranches_requires _ _ _ _ _ E).
Qed.

(** X8. What a construction that completes required: the configuration
    passes the two checks; the scope accepted the id; a repository that was
    imported found the name [CodeRepository] free in the scope, the
    pipeline itself not bearing it; the projects of the prefixes, on the
    default branch, have pairwise distinct names; and the id of the
    pipeline is none of [AccessLogsBucket], [ArtifactsBucket] and
    [CodePipeline]. *)
Theorem completion_requires env scope id props w obj :
  result (Pipeline.new env scope id props w) = inr obj →
  validConfig props = true
  ∧ accepts w scope id
  ∧ (provided (repositoryName props) = true →
     Pipeline.onDefaultBranch env w scope (defaultBranchName props) = false →
     (lit "CodeRepository" ∉ children_of w scope)
     ∧ sanitizeId id ≠ lit "CodeRepository")
  ∧ (∀ prefixes, branchNamePrefixes props = Some prefixes →
     Pipeline.onDefaultBranch env w scope (defaultBranchName props) = true →
     NoDup (map projectName prefixes))
  ∧ sanitizeId id ∉ [lit "AccessLogsBucket"; lit "ArtifactsBucket"; lit "CodePipeline"].
Proof.
  intros H.
  pose proof (new_valid _ _ _ _ _ _ H) as Hvalid.
  destruct (new_phases _ _ _ _ _ _ H)
    as (Hacc & w3' & rs' & w4 & w5 & w6 & _ & _ & HI5 & Hfb & _).
  destruct (new_source_state _ _ _ _ _ _ H) as (w3 & rs & HK & HI3 & Hrs).
  assert (Himport : provided (repositoryName props) = true →
            Pipeline.onDefaultBranch env w scope (defaultBranchName props) = false →
            (lit "CodeRepository" ∉ children_of w scope)
            ∧ sanitizeId id ≠ lit "CodeRepository").
  { intros Hp Hoff.
    rewrite <- (onDefaultBranch_Inv env w w3 scope (sanitizeId id) _ HI3) in Hoff.
    pose proof (import_requires _ _ _ _ _ _ _ HK Hp Hoff Hrs) as Hout.
    rewrite not_elem_of_app, not_elem_of_cons in Hout.
    destruct Hout as [? [? _]]. by split. }
  split; [done|]. split; [done|]. split; [done|]. split.
  - intros prefixes Hp Hd.
    rewrite <- (onDefaultBranch_Inv env w w5 scope (sanitizeId id) _ HI5) in Hd.
    exact (fan_out_requires _ _ _ _ _ _ Hp Hd Hfb).
  - intros Hin.
    assert (Hid : id ≠ [])
      by (destruct Hacc as [Hne _]; by rewrite sanitizeId_nil_iff in Hne).
    destruct (new_artifacts_error env scope id props w Hvalid Hacc) as
      (v3 & source & A & B & HB & HKv & Herr).
    + intros E. rewrite E in Hin. revert Hin.
      rewrite !elem_of_cons, elem_of_nil. intros [?|[?|[?|[]]]]; discriminate.
    + intros Hp Hoff. by apply Himport.
    + rewrite (Herr _ (artifacts_clash scope _ A B id props source v3
                         eq_refl Hid Hin HB HKv)) in H.
      discriminate.
Qed.

Lemma completion_requires_witness :
  accepts stackWorld stack (lit "Demo")
  ∧ NoDup (map projectName [lit "feature"; lit "bugfix"]).
Proof.
  assert (H : ∃ obj, result (Pipeline.new noSignal stack (lit "Demo")
                               (demo None (Some [lit "feature"; lit "bugfix"]))
                               stackWorld) = inr obj)
    by (eexists; vm_compute; reflexivity).
  destruct H as [obj H].
  destruct (completion_requires noSignal stack (lit "Demo")
              (demo None (Some [lit "feature"; lit "bugfix"])) stackWorld obj H)
    as (_ & Hacc & _ & Hnd & _).
  split; [exact Hacc|]. apply (Hnd _ eq_refl). by vm_compute.
Defined.

(** ** More on the sample files *)

Section SampleFilesFrame.

Variable path_join : jsstring → jsstring → jsstring.

(** X20. Of the sample files of a project that go to the same path, the
    first one created is the one written: a file that does not exist is
    written with the contents of the earliest sample file of that path,
    and the later ones find it present. *)
Theorem synth_first_writer (project : Project) (fs : gmap jsstring jsstring)
  (before after : list SampleFile) (f : SampleFile) :
  components project = before ++ f :: after →
  fs !! path_join (outdir project) (filePath f) = None →
  Forall (fun g => path_join (outdir project) (filePath g)
                   ≠ path_join (outdir project) (filePath f)) before →
  synth path_join project fs !! path_join (outdir project) (filePath f)
  = Some (sf_contents f).
Proof.
  intros Hc Hfs Hbefore. unfold synth. rewrite Hc, foldl_app. cbn [foldl].
  apply synth_files_lookup_Some.
  rewrite synthesize_lookup, (synth_files_lookup_None _ _ _ _ _ Hfs Hbefore).
  by rewrite decide_True.
Qed.

End SampleFilesFrame.

Lemma synth_first_writer_witness :
  let join := fun dir file : jsstring => dir ++ lit "/" ++ file in
  let first :=
    {| openApiOptions := {| title := lit "First" |}; handlerLanguages := None |} in
  let second :=
    {| openApiOptions := {| title := lit "Second" |}; handlerLanguages := None |} in
  let project := {| outdir := lit "model"; components := [] |} in
  synth join
    (OpenApiDefinition.new (lit "openapi.yaml")
       (OpenApiDefinition.new (lit "openapi.yaml") project first) second) ∅
  !! lit "model/openapi.yaml"
  = Some (OpenApiDefinition.contents first).
Proof.
  intros join first second project.
  apply (synth_first_writer join
           (OpenApiDefinition.new (lit "openapi.yaml")
              (OpenApiDefinition.new (lit "openapi.yaml") project first) second)
           ∅ []
           [{| filePath := lit "openapi.yaml";
               sf_contents := OpenApiDefinition.contents second |}]
           {| filePath := lit "openapi.yaml";
              sf_contents := OpenApiDefinition.contents first |}).
  - reflexivity.
  - apply lookup_empty.
  - constructor.
Defined.



(** ** The integration-test application *)

(** X22. The pipeline of the integration-test application is constructed
    without error. On the default branch it creates the repository
    [monorepo], retained on removal, the two buckets with the key of the
    artifacts, the pipeline, the [CodePipeline] that follows the
    repository on ["mainline"] with the synth command of the constructor,
    and the output of the clone URL; and the stages added to it get no
    tag. *)
Theorem integ_app_pipeline :
  let this := [lit "Pipeline"; lit "PipelineStack"] in
  let repository := lit "CodeRepository" :: this in
  let o := Pipeline.new noSignal [lit "PipelineStack"] (lit "Pipeline") integProps
             integWorld in
  calls o
  = [New CPDKPipeline this;
     New (CRepository (lit "monorepo")) repository;
     ApplyRemovalPolicy repository RETAIN;
     New (CBucket S3_MANAGED None None) (lit "AccessLogsBucket" :: this);
     New CKey (lit "ArtifactKey" :: this);
     New (CBucket KMS (Some (lit "ArtifactKey" :: this))
            (Some (lit "AccessLogsBucket" :: this)))
       (lit "ArtifactsBucket" :: this);
     New (CPipeline (Some true) (lit "ArtifactsBucket" :: this))
       (lit "CodePipeline" :: this);
     New (CCodePipeline (lit "CodePipeline" :: this)
            (SourceCodeCommit repository (lit "mainline"))
            [lit "npx projen build"])
       (lit "Pipeline" :: this);
     New (CCfnOutput repository) (lit "CodeRepositoryGRCUrl" :: this)]
  ∧ ∃ obj,
      result o = inr obj
      ∧ codePipeline obj = lit "Pipeline" :: this
      ∧ ∀ stage w, calls (Pipeline.tagStage noSignal obj stage w) = [].
Proof.
  cbv zeta. split; [by vm_compute|].
  eexists. split; [vm_compute; reflexivity|]. split; [reflexivity|].
  intros stage w. by rewrite tagStage_run.
Qed.

(** ** The readings at work on example configurations *)

Lemma construction_trace_witness :
  calls (Pipeline.new noSignal stack (lit "Demo") (demo None None) stackWorld)
  = constructionTrace noSignal stackWorld stack (lit "Demo") (demo None None).
Proof.
  assert (H : ∃ obj, result (Pipeline.new noSignal stack (lit "Demo") (demo None None)
                               stackWorld) = inr obj)
    by (eexists; vm_compute; reflexivity).
  destruct H as [obj H].
  exact (proj2 (construction_trace noSignal stack (lit "Demo") (demo None None)
                  stackWorld obj H)).
Defined.

Lemma connection_source_witness :
  repositoryCalls
    (calls (Pipeline.new noSignal stack (lit "Demo") viaConnection stackWorld)) = []
  ∧ List.filter is_output
      (calls (Pipeline.new noSignal stack (lit "Demo") viaConnection stackWorld)) = [].
Proof.
  assert (H : ∃ obj, result (Pipeline.new noSignal stack (lit "Demo") viaConnection
                               stackWorld) = inr obj)
    by (eexists; vm_compute; reflexivity).
  destruct H as [obj H].
  destruct (connection_source noSignal stack (lit "Demo") viaConnection stackWorld obj
              eq_refl H) as (owner & arn & _ & _ & _ & _ & _ & Hr & Ho & _).
  split; [exact Hr|exact Ho].
Defined.

Lemma repository_bound_witness :
  List.filter is_output
    (calls (Pipeline.new onFeatureX stack (lit "Demo") (demo None None) stackWorld))
  = [New (CCfnOutput [lit "CodeRepository"; lit "Stack"])
       [lit "CodeRepositoryGRCUrl"; lit "Demo"; lit "Stack"]].
Proof.
  assert (H : ∃ obj, result (Pipeline.new onFeatureX stack (lit "Demo") (demo None None)
                               stackWorld) = inr obj)
    by (eexists; vm_compute; reflexivity).
  destruct H as [obj H].
  destruct (repository_bound onFeatureX stack (lit "Demo") (demo None None) stackWorld
              obj (lit "Demo") eq_refl ltac:(discriminate) H) as (_ & _ & Ho).
  rewrite Ho. vm_compute. reflexivity.
Defined.

Lemma artifact_encryption_witness :
  List.filter is_store
    (calls (Pipeline.new noSignal stack (lit "Demo") (demo None None) stackWorld))
  = [New (CBucket S3_MANAGED None None) [lit "AccessLogsBucket"; lit "Demo"; lit "Stack"];
     New (CBucket S3_MANAGED None
            (Some [lit "AccessLogsBucket"; lit "Demo"; lit "Stack"]))
       [lit "ArtifactsBucket"; lit "Demo"; lit "Stack"]].
Proof.
  assert (H : ∃ obj, result (Pipeline.new noSignal stack (lit "Demo") (demo None None)
                               stackWorld) = inr obj)
    by (eexists; vm_compute; reflexivity).
  destruct H as [obj H].
  exact (artifact_encryption noSignal stack (lit "Demo") (demo None None) stackWorld
           obj H).
Defined.

Lemma pipeline_fan_out_witness :
  List.filter is_feature_branches
    (calls (Pipeline.new noSignal stack (lit "Demo") (demo None (Some [])) stackWorld))
  = [New CFeatureBranches [lit "FeatureBranchPipelines"; lit "Demo"; lit "Stack"]]
  ∧ featureTriggers
      (calls (Pipeline.new noSignal stack (lit "Demo") (demo None (Some [])) stackWorld))
    = [].
Proof.
  assert (H : ∃ obj, result (Pipeline.new noSignal stack (lit "Demo")
                               (demo None (Some [])) stackWorld) = inr obj)
    by (eexists; vm_compute; reflexivity).
  destruct H as [obj H].
  exact (pipeline_fan_out noSignal stack (lit "Demo") (demo None (Some [])) stackWorld
           obj H).
Defined.

Lemma stage_tags_match_stack_tags_witness :
  ∃ obj,
    result (Pipeline.new onFeatureX stack (lit "Demo")
              (demo None (Some [lit "feature"])) stackWorld) = inr obj
    ∧ omap tagOf (calls (Pipeline.tagStage onFeatureX obj [lit "Stage"] stackWorld))
      = omap tagOf
          (calls (Pipeline.new onFeatureX stack (lit "Demo")
                    (demo None (Some [lit "feature"])) stackWorld)).
Proof.
  assert (H : ∃ obj, result (Pipeline.new onFeatureX stack (lit "Demo")
                               (demo None (Some [lit "feature"])) stackWorld) = inr obj)
    by (eexists; vm_compute; reflexivity).
  destruct H as [obj H]. exists obj. split; [exact H|].
  apply (stage_tags_match_stack_tags onFeatureX stack (lit "Demo")
           (demo None (Some [lit "feature"])) stackWorld obj [lit "Stage"] stackWorld H).
  by vm_compute.
Defined.

(** X23. The branch resolver is asked with the node of the pipeline by the
    constructor and with the node of the stage by [addStage], and the two
    can disagree. With the default name ["main"] in the context of the
    stack only, and the branch signal ["main"], the constructor runs on the
    default branch, and tags nothing, while [addStage] takes a stage
    outside the stack to be on a feature branch, and tags it. *)
Theorem stage_resolver_can_differ :
  let props := demo None (Some [lit "feature"]) in
  let o := Pipeline.new onMain stack (lit "Demo") props mainStackWorld in
  Pipeline.onDefaultBranch onMain mainStackWorld stack None = true
  ∧ tagsAdded (calls o) = []
  ∧ ∃ obj,
      result o = inr obj
      ∧ calls (Pipeline.tagStage onMain obj [lit "Stage"] (final o))
        = [AddTag (OnConstruct [lit "Stage"]) (lit "FeatureBranch") (lit "main");
           AddTag (OnConstruct [lit "Stage"]) (lit "RepoName") (lit "Demo")].
Proof.
  cbv zeta. split; [by vm_compute|]. split; [by vm_compute|].
  eexists. split; [vm_compute; reflexivity|]. by vm_compute.
Qed.
